(** * mcp-searxng: URL reader, extraction engine and document cache

    A shallow embedding of [cache.ts] (class [SimpleCache]) and of the
    URL reader ([applyCharacterPagination], [extractSection],
    [extractParagraphRange], [extractHeadings], [applyPaginationOptions],
    [fetchAndConvertToMarkdown]), followed by the properties established
    about them.

    Conventions of the embedding.
    - A JavaScript string is a sequence of UTF-16 code units.  The
      development works with the code units 0..255 and represents a string
      by Rocq's [string]; a character [c : ascii] stands for the code unit
      with the same number.
    - A JavaScript number is represented by an integer ([Z]); fractional
      values, NaN and the infinities are outside the embedding.
    - An optional property ([startChar?: number]) is an [option]; [None]
      is [undefined].
    - Code that may throw returns a [completion]. *)

From Stdlib Require Import String Ascii ZArith List Lia Bool.
From stdpp Require Import gmap strings.

Local Open Scope string_scope.

(* stdpp freezes [String.append] under [simpl] and [cbn]; the proofs below
   want it to compute on constructors. *)
#[local] Arguments String.append !_ _ : simpl nomatch.

(* ===================================================================== *)
(** * Part I: the embedding                                               *)
(* ===================================================================== *)

(** ** JavaScript strings *)

Module Js.

Definition LF : ascii := "010"%char.
Definition CR : ascii := "013"%char.
Definition QUOTE : ascii := "034"%char.
Definition HASH : ascii := "#"%char.

Definition code (c : ascii) : N := N_of_ascii c.

(** [str.length]. *)
Definition len (s : string) : Z := Z.of_nat (String.length s).

(** The characters matched by [\s] and removed by [trim()]: WhiteSpace and
    LineTerminator of ECMAScript, among the code units 0..255. *)
Definition isWhiteSpace (c : ascii) : bool :=
  let n := code c in
  ((n =? 9) || (n =? 10) || (n =? 11) || (n =? 12) || (n =? 13)
   || (n =? 32) || (n =? 160))%N.

(** The characters [.] does not match (no [s] flag). *)
Definition isLineTerminator (c : ascii) : bool :=
  let n := code c in ((n =? 10) || (n =? 13))%N.

Definition isDigit (c : ascii) : bool :=
  let n := code c in ((48 <=? n) && (n <=? 57))%N.

Definition isEmpty (s : string) : bool :=
  match s with EmptyString => true | String _ _ => false end.

Fixpoint trimStart (s : string) : string :=
  match s with
  | String c s' => if isWhiteSpace c then trimStart s' else s
  | EmptyString => EmptyString
  end.

(** [trimEnd] drops a character when it is white space and everything
    after it has been dropped. *)
Fixpoint trimEnd (s : string) : string :=
  match s with
  | String c s' =>
      let t := trimEnd s' in
      if isEmpty t && isWhiteSpace c then EmptyString else String c t
  | EmptyString => EmptyString
  end.

(** [str.trim()]. *)
Definition trim (s : string) : string := trimEnd (trimStart s).

(** [str.slice(start, end)] with the relative (negative) indices of
    String.prototype.slice; [None] is an omitted [end]. *)
Definition slice (s : string) (start : Z) (end_ : option Z) : string :=
  let n := len s in
  let from := if (start <? 0)%Z then Z.max (n + start) 0 else Z.min start n in
  let e := match end_ with Some e => e | None => n end in
  let to := if (e <? 0)%Z then Z.max (n + e) 0 else Z.min e n in
  substring (Z.to_nat from) (Z.to_nat (Z.max (to - from) 0)) s.

(** [arr.slice(start, end)], same index rules on an array. *)
Definition array_slice {A : Type} (l : list A) (start : Z) (end_ : option Z) : list A :=
  let n := Z.of_nat (List.length l) in
  let from := if (start <? 0)%Z then Z.max (n + start) 0 else Z.min start n in
  let e := match end_ with Some e => e | None => n end in
  let to := if (e <? 0)%Z then Z.max (n + e) 0 else Z.min e n in
  firstn (Z.to_nat (Z.max (to - from) 0)) (skipn (Z.to_nat from) l).

(** [arr.join(sep)]. *)
Fixpoint join (sep : string) (l : list string) : string :=
  match l with
  | nil => EmptyString
  | x :: nil => x
  | x :: rest => x ++ sep ++ join sep rest
  end.

(** [str.split(sep)] for a non-empty separator: the pieces between the
    successive non-overlapping occurrences of [sep], found left to right.
    [skip] counts the characters of an occurrence still to be passed over. *)
Fixpoint split_from (sep : string) (skip : nat) (s : string) : list string :=
  match s with
  | EmptyString => EmptyString :: nil
  | String c s' =>
      match skip with
      | S k => split_from sep k s'
      | O =>
          if String.prefix sep s
          then EmptyString :: split_from sep (String.length sep - 1) s'
          else match split_from sep 0 s' with
               | piece :: pieces => String c piece :: pieces
               | nil => String c EmptyString :: nil
               end
      end
  end.

Definition split (sep : string) (s : string) : list string := split_from sep 0 s.

(** Number of leading characters equal to [c]: the length of the match of
    [/^c+/], 0 when there is none. *)
Fixpoint leading (c : ascii) (s : string) : nat :=
  match s with
  | String d s' => if Ascii.eqb d c then S (leading c s') else O
  | EmptyString => O
  end.

(** Value of a string of decimal digits, as [parseInt] reads it.  The
    value is exact here; JavaScript rounds it above 2^53, which changes
    none of the comparisons with an array length made by the callers. *)
Definition digitValue (c : ascii) : Z := Z.of_N (code c) - 48.

Fixpoint parseDigits (acc : Z) (s : string) : Z :=
  match s with
  | String c s' => parseDigits (10 * acc + digitValue c) s'
  | EmptyString => acc
  end.

Definition parseInt (s : string) : Z := parseDigits 0 s.

(** The longest prefix of decimal digits (what a greedy [\d*] takes) and
    the rest of the string. *)
Fixpoint digits_prefix (s : string) : string * string :=
  match s with
  | String c s' =>
      if isDigit c
      then let (d, r) := digits_prefix s' in (String c d, r)
      else (EmptyString, s)
  | EmptyString => (EmptyString, EmptyString)
  end.

(** Truthiness of a number and of a string. *)
Definition truthyNumber (z : Z) : bool := negb (z =? 0)%Z.
Definition truthyString (s : string) : bool := negb (isEmpty s).

End Js.

(** ** Character window *)

(** [applyCharacterPagination(content, startChar = 0, maxLength?)]. *)
Definition applyCharacterPagination
  (content : string) (startChar : option Z) (maxLength : option Z) : string :=
  let startChar := match startChar with Some s => s | None => 0%Z end in
  if (startChar >=? Js.len content)%Z then EmptyString
  else
    let start := Z.max 0 startChar in
    let end_ :=
      match maxLength with
      | Some m => if Js.truthyNumber m
                  then Z.min (Js.len content) (start + m)
                  else Js.len content
      | None => Js.len content
      end in
    Js.slice content start (Some end_).

(** ** Regular expressions

    [extractSection] builds its pattern at run time from the requested
    heading, so the embedding needs the [RegExp] constructor and
    [RegExp.prototype.test] of the language.  They are modelled for
    patterns without the [u] and [v] flags (ECMAScript with the Annex B
    grammar) on this fragment: pattern characters, [.], the assertions [^]
    and [$], groups [( )] and [(?: )], alternation, the quantifiers
    [* + ? {n} {n,} {n,m}] (greedy or lazy), the class escapes
    [\d \D \s \S \w \W], the control escapes [\t \n \r \f \v] and identity
    escapes.  The constructor answers [Unsupported] on a pattern that uses
    anything else (character classes, look-around, named groups, back
    references, [\b], [\c], [\x], [\u], octal escapes); [SyntaxError] and
    [Compiled] are answered only where the language does.

    [test] decides whether some match exists.  On this fragment that does
    not depend on the priorities of the backtracking search, nor on
    captures, so groups leave no trace in the syntax tree. *)

Module RegExp.

Inductive escape := Digit | NotDigit | Space | NotSpace | Word | NotWord.

Inductive regex :=
| Empty
| Chr (c : ascii)
| Dot
| Esc (e : escape)
| Bol
| Eol
| Seq (r1 r2 : regex)
| Alt (r1 r2 : regex)
| Quant (r : regex) (lo : nat) (hi : option nat).

Inductive result :=
| Compiled (r : regex)
| SyntaxError
| Unsupported.

(** *** The constructor: parsing a pattern *)

(** What the term just read allows next: nothing to quantify, an atom
    that a quantifier may follow, or a quantifier that [?] may make lazy. *)
Inductive pending :=
| NoAtom
| Atom (r : regex)
| Quantified.

(** One frame per open group: the alternatives already closed by [|], the
    terms of the current alternative, and the atom read last. *)
Record frame := Frame { alts : option regex; acc : regex; last : pending }.

Definition fresh : frame := Frame None Empty NoAtom.

Definition seq_of (f : frame) : regex :=
  match last f with
  | Atom r => Seq (acc f) r
  | _ => acc f
  end.

Definition close (f : frame) : regex :=
  match alts f with
  | Some a => Alt a (seq_of f)
  | None => seq_of f
  end.

Definition push_atom (r : regex) (f : frame) : frame :=
  Frame (alts f) (seq_of f) (Atom r).

Definition push_assertion (r : regex) (f : frame) : frame :=
  Frame (alts f) (Seq (seq_of f) r) NoAtom.

Definition quantify (lo : nat) (hi : option nat) (f : frame) : option frame :=
  match last f with
  | Atom r => Some (Frame (alts f) (Seq (acc f) (Quant r lo hi)) Quantified)
  | _ => None
  end.

(** [?] is the quantifier {0,1} after an atom and the lazy mark after a
    quantifier. *)
Definition question (f : frame) : option frame :=
  match last f with
  | Atom r => quantify 0 (Some 1) f
  | Quantified => Some (Frame (alts f) (acc f) NoAtom)
  | NoAtom => None
  end.

Definition bar (f : frame) : frame := Frame (Some (close f)) Empty NoAtom.

Definition bound (d : string) : nat := Z.to_nat (Js.parseInt d).

(** The text after a [{]: the bounds of a braced quantifier and the number
    of characters it takes up to and including [}], when there is one. *)
Definition braces (s : string) : option (nat * option nat * nat) :=
  let (d1, r1) := Js.digits_prefix s in
  if Js.isEmpty d1 then None
  else
    match r1 with
    | String "}" _ => Some (bound d1, Some (bound d1), String.length d1 + 1)
    | String "," (String "}" _) => Some (bound d1, None, String.length d1 + 2)
    | String "," r2 =>
        let (d2, r3) := Js.digits_prefix r2 in
        if Js.isEmpty d2 then None
        else
          match r3 with
          | String "}" _ =>
              Some (bound d1, Some (bound d2),
                    String.length d1 + 1 + String.length d2 + 1)
          | _ => None
          end
    | _ => None
    end.

Definition ordered (lo : nat) (hi : option nat) : bool :=
  match hi with
  | Some h => Nat.leb lo h
  | None => true
  end.

Inductive escaped :=
| EClass (e : escape)
| EChar (c : ascii)
| EUnsupported.

(** The character after a backslash. *)
Definition atom_escape (c : ascii) : escaped :=
  if Ascii.eqb c "d" then EClass Digit
  else if Ascii.eqb c "D" then EClass NotDigit
  else if Ascii.eqb c "s" then EClass Space
  else if Ascii.eqb c "S" then EClass NotSpace
  else if Ascii.eqb c "w" then EClass Word
  else if Ascii.eqb c "W" then EClass NotWord
  else if Ascii.eqb c "t" then EChar "009"
  else if Ascii.eqb c "n" then EChar "010"
  else if Ascii.eqb c "v" then EChar "011"
  else if Ascii.eqb c "f" then EChar "012"
  else if Ascii.eqb c "r" then EChar "013"
  else if Js.isDigit c
          || Ascii.eqb c "b" || Ascii.eqb c "B" || Ascii.eqb c "c"
          || Ascii.eqb c "k" || Ascii.eqb c "x" || Ascii.eqb c "u"
       then EUnsupported
  else EChar c.

Inductive token :=
| TCaret | TDollar | TDot | TStar | TPlus | TQuestion | TBar
| TOpen | TClose | TBracket | TBrace | TBackslash | TChar.

Definition classify (c : ascii) : token :=
  if Ascii.eqb c "^" then TCaret
  else if Ascii.eqb c "$" then TDollar
  else if Ascii.eqb c "." then TDot
  else if Ascii.eqb c "*" then TStar
  else if Ascii.eqb c "+" then TPlus
  else if Ascii.eqb c "?" then TQuestion
  else if Ascii.eqb c "|" then TBar
  else if Ascii.eqb c "(" then TOpen
  else if Ascii.eqb c ")" then TClose
  else if Ascii.eqb c "[" then TBracket
  else if Ascii.eqb c "{" then TBrace
  else if Ascii.eqb c "\" then TBackslash
  else TChar.

(** The pattern is read left to right; [skip] counts the characters of a
    braced quantifier still to be passed over, [cur] is the frame of the
    innermost open group and [stack] the frames of the enclosing ones. *)
Fixpoint parse (p : string) (skip : nat) (cur : frame) (stack : list frame)
  {struct p} : result :=
  match p with
  | EmptyString =>
      match stack with
      | nil => Compiled (close cur)
      | _ :: _ => SyntaxError
      end
  | String c p' =>
      match skip with
      | S k => parse p' k cur stack
      | O =>
          match classify c with
          | TCaret => parse p' 0 (push_assertion Bol cur) stack
          | TDollar => parse p' 0 (push_assertion Eol cur) stack
          | TDot => parse p' 0 (push_atom Dot cur) stack
          | TStar =>
              match quantify 0 None cur with
              | Some f => parse p' 0 f stack
              | None => SyntaxError
              end
          | TPlus =>
              match quantify 1 None cur with
              | Some f => parse p' 0 f stack
              | None => SyntaxError
              end
          | TQuestion =>
              match question cur with
              | Some f => parse p' 0 f stack
              | None => SyntaxError
              end
          | TBar => parse p' 0 (bar cur) stack
          | TOpen =>
              match p' with
              | String "?" (String ":" p'') => parse p'' 0 fresh (cur :: stack)
              | String "?" _ => Unsupported
              | _ => parse p' 0 fresh (cur :: stack)
              end
          | TClose =>
              match stack with
              | parent :: stack' =>
                  parse p' 0 (push_atom (close cur) parent) stack'
              | nil => SyntaxError
              end
          | TBracket => Unsupported
          | TBrace =>
              match braces p' with
              | Some (lo, hi, n) =>
                  if ordered lo hi
                  then match quantify lo hi cur with
                       | Some f => parse p' n f stack
                       | None => SyntaxError
                       end
                  else SyntaxError
              | None => parse p' 0 (push_atom (Chr c) cur) stack
              end
          | TBackslash =>
              match p' with
              | EmptyString => SyntaxError
              | String e p'' =>
                  match atom_escape e with
                  | EClass cl => parse p'' 0 (push_atom (Esc cl) cur) stack
                  | EChar ch => parse p'' 0 (push_atom (Chr ch) cur) stack
                  | EUnsupported => Unsupported
                  end
              end
          | TChar => parse p' 0 (push_atom (Chr c) cur) stack
          end
      end
  end.

(** [new RegExp(pattern, flags)]; the flags are kept by the caller. *)
Definition create (pattern : string) : result := parse pattern 0 fresh nil.

(** *** Matching *)

(** [Canonicalize] of a code unit under the [i] flag: its upper case when
    that is a single code unit.  Two code units below 256 leave the range:
    the micro sign goes to 924 and y with diaeresis to 376. *)
Definition canonicalize (c : ascii) : N :=
  let n := Js.code c in
  (if (97 <=? n) && (n <=? 122) then n - 32
   else if n =? 181 then 924
   else if n =? 255 then 376
   else if (224 <=? n) && (n <=? 254) && negb (n =? 247) then n - 32
   else n)%N.

Definition isWord (c : ascii) : bool :=
  let n := Js.code c in
  (((48 <=? n) && (n <=? 57)) || ((65 <=? n) && (n <=? 90))
   || ((97 <=? n) && (n <=? 122)) || (n =? 95))%N.

Definition in_escape (e : escape) (c : ascii) : bool :=
  match e with
  | Digit => Js.isDigit c
  | NotDigit => negb (Js.isDigit c)
  | Space => Js.isWhiteSpace c
  | NotSpace => negb (Js.isWhiteSpace c)
  | Word => isWord c
  | NotWord => negb (isWord c)
  end.

Definition cont := nat -> string -> bool.

Section Matcher.

Variable ignoreCase : bool.

Definition charMatches (pc c : ascii) : bool :=
  if ignoreCase then (canonicalize pc =? canonicalize c)%N else Ascii.eqb pc c.

(** Repetition of the matcher [m]: [lo] iterations are due, then up to
    [hi] more, each of which has to consume input (an iteration that
    matches the empty string is rejected, as RepeatMatcher does).  The
    number of iterations is at most [lo] plus the length of the input,
    which is what [fuel] is started with. *)
Fixpoint rep (m : nat -> string -> cont -> bool) (k : cont)
  (fuel lo : nat) (hi : option nat) (pos : nat) (s : string) {struct fuel} : bool :=
  match fuel with
  | O => false
  | S fuel' =>
      match lo with
      | S lo' =>
          m pos s (fun pos' s' => rep m k fuel' lo' (option_map Nat.pred hi) pos' s')
      | O =>
          match hi with
          | Some O => k pos s
          | _ =>
              m pos s (fun pos' s' =>
                         Nat.ltb (String.length s') (String.length s)
                         && rep m k fuel' 0 (option_map Nat.pred hi) pos' s')
              || k pos s
          end
      end
  end.

(** [run r pos s k]: some match of [r] at position [pos], where [s] is the
    input from [pos] on, can be continued by [k]. *)
Fixpoint run (r : regex) (pos : nat) (s : string) (k : cont) {struct r} : bool :=
  match r with
  | Empty => k pos s
  | Chr c =>
      match s with
      | String d s' => charMatches c d && k (S pos) s'
      | EmptyString => false
      end
  | Dot =>
      match s with
      | String d s' => negb (Js.isLineTerminator d) && k (S pos) s'
      | EmptyString => false
      end
  | Esc e =>
      match s with
      | String d s' => in_escape e d && k (S pos) s'
      | EmptyString => false
      end
  | Bol => Nat.eqb pos 0 && k pos s
  | Eol => Js.isEmpty s && k pos s
  | Seq r1 r2 => run r1 pos s (fun pos' s' => run r2 pos' s' k)
  | Alt r1 r2 => run r1 pos s k || run r2 pos s k
  | Quant r' lo hi => rep (run r') k (lo + String.length s + 1) lo hi pos s
  end.

(** The match is tried at every start position, from the left. *)
Fixpoint search (r : regex) (pos : nat) (s : string) {struct s} : bool :=
  run r pos s (fun _ _ => true)
  || match s with
     | String _ s' => search r (S pos) s'
     | EmptyString => false
     end.

End Matcher.

(** [regexp.test(str)] for a regular expression without the [g] and [y]
    flags. *)
Definition test (ignoreCase : bool) (r : regex) (s : string) : bool :=
  search ignoreCase r 0 s.

End RegExp.

(** ** Errors and completions *)

(** The kinds of failure of the pipeline (one per factory of
    [error-handler.js]). *)
Inductive ErrorKind :=
| URLFormatError
| NetworkError
| ServerError
| ContentError
| ConversionError
| TimeoutError
| UnexpectedError.

(** A thrown value: an error of the runtime or of a library, known by its
    [name] property, or an error built by one of the factories. *)
Inductive error :=
| NativeError (name : string)
| MCPSearXNGError (kind : ErrorKind) (url : string).

(** [error.name]. *)
Definition error_name (e : error) : string :=
  match e with
  | NativeError n => n
  | MCPSearXNGError _ _ => "MCPSearXNGError"
  end.

(** The factories of [error-handler.js], which is not among the sources.
    Each [create<Kind>Error] is taken to return an error of that kind of
    the error taxonomy, carrying the URL of its context; the errors of the
    factories are the "enhanced errors" the pipeline recognises by the name
    [MCPSearXNGError]. *)

(** Modelled from the spec: [createURLFormatError] of [error-handler.js]
    is missing; the input failed URL syntax validation. *)
Definition createURLFormatError (url : string) : error :=
  MCPSearXNGError URLFormatError url.

(** Modelled from the spec: [createNetworkError] of [error-handler.js] is
    missing; a transport-level fetch failure, built from the rejection and
    the context (URL, proxy in use, timeout). *)
Definition createNetworkError (cause : error) (url : string) (proxyAgent : bool)
  (timeout : Z) : error :=
  MCPSearXNGError NetworkError url.

(** Modelled from the spec: [createServerError] of [error-handler.js] is
    missing; a non-success status, with status text and body. *)
Definition createServerError (status : Z) (statusText responseBody url : string) : error :=
  MCPSearXNGError ServerError url.

(** Modelled from the spec: [createContentError] of [error-handler.js] is
    missing; the body is unreadable, or empty or white space only. *)
Definition createContentError (message url : string) : error :=
  MCPSearXNGError ContentError url.

(** Modelled from the spec: [createConversionError] of [error-handler.js]
    is missing; the translate capability failed. *)
Definition createConversionError (cause : error) (url htmlContent : string) : error :=
  MCPSearXNGError ConversionError url.

(** Modelled from the spec: [createTimeoutError] of [error-handler.js] is
    missing; the cancellation signal fired before the fetch completed. *)
Definition createTimeoutError (timeout : Z) (url : string) : error :=
  MCPSearXNGError TimeoutError url.

(** Modelled from the spec: [createUnexpectedError] of [error-handler.js]
    is missing; any failure not matching the other kinds, wrapping its
    cause. *)
Definition createUnexpectedError (cause : error) (url : string) : error :=
  MCPSearXNGError UnexpectedError url.

(** The result of running a piece of code: it returns, it throws, or it
    depends on a regular expression outside the modelled fragment. *)
Inductive completion (A : Type) :=
| Returned (a : A)
| Thrown (e : error)
| Unmodelled.

Arguments Returned {A} a.
Arguments Thrown {A} e.
Arguments Unmodelled {A}.

(** ** Extraction engine *)

Record PaginationOptions := {
  startChar : option Z;
  maxLength : option Z;
  section : option string;
  paragraphRange : option string;
  readHeadings : option bool
}.

Definition NL : string := String Js.LF EmptyString.
Definition NLNL : string := String Js.LF (String Js.LF EmptyString).

(** The template literal of [extractSection].  In a template literal the
    escape [\s] is the letter [s], so the pattern handed to the constructor
    reads [^#{1,6}s*.*] followed by the heading and [.*$]. *)
Definition sectionPattern (sectionHeading : string) : string :=
  "^#{1,6}s*.*" ++ sectionHeading ++ ".*$".

(** The literal [/^#+/] of [extractSection] as the constructor reads it.
    The code uses the length of its match, which is [Js.leading]: the
    greedy [#+] takes every leading number sign.  Part II checks that it
    matches exactly when that length is not 0. *)
Definition levelRegex : RegExp.regex :=
  Eval cbv in
    match RegExp.create "^#+" with
    | RegExp.Compiled r => r
    | _ => RegExp.Empty
    end.

(** First loop of [extractSection]: the index of the first line the
    regular expression accepts, with the length of its [/^#+/] match. *)
Fixpoint findSectionStart (sectionRegex : RegExp.regex) (lines : list string) (i : nat)
  : option (nat * nat) :=
  match lines with
  | nil => None
  | line :: rest =>
      if RegExp.test true sectionRegex line
      then Some (i, Js.leading Js.HASH line)
      else findSectionStart sectionRegex rest (S i)
  end.

(** Second loop: [lines] are the lines from index [i] on; the index of the
    first one whose [/^#+/] match exists and is at most [currentLevel]
    long. *)
Fixpoint findSectionEnd (currentLevel : nat) (lines : list string) (i : nat) : option nat :=
  match lines with
  | nil => None
  | line :: rest =>
      let n := Js.leading Js.HASH line in
      if Nat.ltb 0 n && Nat.leb n currentLevel
      then Some i
      else findSectionEnd currentLevel rest (S i)
  end.

Definition extractSection (markdownContent sectionHeading : string) : completion string :=
  let lines := Js.split NL markdownContent in
  match RegExp.create (sectionPattern sectionHeading) with
  | RegExp.SyntaxError => Thrown (NativeError "SyntaxError")
  | RegExp.Unsupported => Unmodelled
  | RegExp.Compiled sectionRegex =>
      match findSectionStart sectionRegex lines 0 with
      | None => Returned EmptyString
      | Some (startIndex, currentLevel) =>
          let endIndex :=
            match findSectionEnd currentLevel (skipn (S startIndex) lines) (S startIndex) with
            | Some i => i
            | None => List.length lines
            end in
          Returned (Js.join NL
                      (Js.array_slice lines (Z.of_nat startIndex) (Some (Z.of_nat endIndex))))
      end
  end.

(** [range.match(re)] for the literal of [extractParagraphRange]: one or
    more digits (first capture), then optionally a hyphen and a possibly
    empty run of digits (second capture), up to the end of the string.
    The result holds the two captures, the second one [None] when the
    optional group did not take part.  The greedy first run takes every
    leading digit: giving one back leaves a digit where the hyphen or the
    end is required. *)
Definition matchRange (range : string) : option (string * option string) :=
  let (d1, r1) := Js.digits_prefix range in
  if Js.isEmpty d1 then None
  else
    match r1 with
    | EmptyString => Some (d1, None)
    | String "-" r2 =>
        let (d2, r3) := Js.digits_prefix r2 in
        if Js.isEmpty r3 then Some (d1, Some d2) else None
    | String _ _ => None
    end.

(** The same literal as the constructor reads it; Part II checks that
    [matchRange] accepts what this regular expression accepts. *)
Definition rangeRegex : RegExp.regex :=
  Eval cbv in
    match RegExp.create "^(\d+)(?:-(\d*))?$" with
    | RegExp.Compiled r => r
    | _ => RegExp.Empty
    end.

Definition paragraphsOf (markdownContent : string) : list string :=
  List.filter (fun p => (Js.len (Js.trim p) >? 0)%Z) (Js.split NLNL markdownContent).

Definition extractParagraphRange (markdownContent range : string) : string :=
  let paragraphs := paragraphsOf markdownContent in
  match matchRange range with
  | None => EmptyString
  | Some (g1, endStr) =>
      let start := (Js.parseInt g1 - 1)%Z in
      if (start <? 0)%Z || (start >=? Z.of_nat (List.length paragraphs))%Z
      then EmptyString
      else
        match endStr with
        | None => nth (Z.to_nat start) paragraphs EmptyString
        | Some e =>
            if Js.isEmpty e
            then Js.join NLNL (Js.array_slice paragraphs start None)
            else Js.join NLNL (Js.array_slice paragraphs start (Some (Js.parseInt e)))
        end
  end.

(** The regular expression literal [/^#{1,6}\s/] of [extractHeadings]. *)
Definition headingRegex : RegExp.regex :=
  Eval cbv in
    match RegExp.create "^#{1,6}\s" with
    | RegExp.Compiled r => r
    | _ => RegExp.Empty
    end.

Definition noHeadings : string := "No headings found in the content.".

Definition extractHeadings (markdownContent : string) : string :=
  let lines := Js.split NL markdownContent in
  let headings := List.filter (fun line => RegExp.test false headingRegex line) lines in
  if Nat.eqb (List.length headings) 0 then noHeadings
  else Js.join NL headings.

Definition quoted (s : string) : string :=
  String Js.QUOTE (s ++ String Js.QUOTE EmptyString).

Definition sectionNotFound (section : string) : string :=
  "Section " ++ quoted section ++ " not found in the content.".

Definition rangeInvalid (range : string) : string :=
  "Paragraph range " ++ quoted range ++ " is invalid or out of bounds.".

Definition isSet {A : Type} (o : option A) : bool :=
  match o with Some _ => true | None => false end.

(** The steps of [applyPaginationOptions] after the heading short cut, each
    taking the current [result]. *)
Definition characterStep (options : PaginationOptions) (result : string) : string :=
  if isSet (startChar options) || isSet (maxLength options)
  then applyCharacterPagination result (startChar options) (maxLength options)
  else result.

Definition paragraphStep (options : PaginationOptions) (result : string) : completion string :=
  match paragraphRange options with
  | Some range =>
      if Js.truthyString range
      then
        let result := extractParagraphRange result range in
        if Js.isEmpty result then Returned (rangeInvalid range)
        else Returned (characterStep options result)
      else Returned (characterStep options result)
  | None => Returned (characterStep options result)
  end.

Definition applyPaginationOptions (markdownContent : string) (options : PaginationOptions)
  : completion string :=
  let result := markdownContent in
  match readHeadings options with
  | Some true => Returned (extractHeadings result)
  | _ =>
      match section options with
      | Some heading =>
          if Js.truthyString heading
          then
            match extractSection result heading with
            | Returned result =>
                if Js.isEmpty result then Returned (sectionNotFound heading)
                else paragraphStep options result
            | Thrown e => Thrown e
            | Unmodelled => Unmodelled
            end
          else paragraphStep options result
      | None => paragraphStep options result
      end
  end.

(** ** Document cache ([cache.ts]) *)

Record CacheEntry := {
  htmlContent : string;
  markdownContent : string;
  timestamp : Z
}.

(** The state of a [SimpleCache]: the map and the time to live.  The
    interval timer of the background sweep is not part of the state; a
    tick of it is a call of [cleanupExpired]. *)
Record SimpleCache := {
  cache : gmap string CacheEntry;
  ttlMs : Z
}.

Module Cache.

(** [new SimpleCache(ttlMs = 60000)]. *)
Definition create (ttl : option Z) : SimpleCache :=
  {| cache := ∅; ttlMs := match ttl with Some t => t | None => 60000%Z end |}.

Definition expired (now : Z) (c : SimpleCache) (entry : CacheEntry) : bool :=
  (now - timestamp entry >? ttlMs c)%Z.

(** [get(url)], with [now] the value [Date.now()] returns. *)
Definition get (now : Z) (url : string) (c : SimpleCache)
  : option CacheEntry * SimpleCache :=
  match cache c !! url with
  | None => (None, c)
  | Some entry =>
      if expired now c entry
      then (None, {| cache := delete url (cache c); ttlMs := ttlMs c |})
      else (Some entry, c)
  end.

(** [set(url, htmlContent, markdownContent)]. *)
Definition set (now : Z) (url html markdown : string) (c : SimpleCache) : SimpleCache :=
  {| cache := <[url := {| htmlContent := html;
                          markdownContent := markdown;
                          timestamp := now |}]> (cache c);
     ttlMs := ttlMs c |}.

Definition cleanupExpired (now : Z) (c : SimpleCache) : SimpleCache :=
  {| cache := filter (fun kv => expired now c (snd kv) = false) (cache c);
     ttlMs := ttlMs c |}.

Definition clear (c : SimpleCache) : SimpleCache :=
  {| cache := ∅; ttlMs := ttlMs c |}.

End Cache.

(** ** Retrieval pipeline *)

(** What [fetch] resolves to.  [text] is the outcome of [response.text()]. *)
Record Response := {
  ok : bool;
  status : Z;
  statusText : string;
  text : error + string
}.

(** The collaborators of one run of the pipeline, each given by what it
    answers: the clock, the URL parser, the proxy configuration, the
    network, the converter and the wording of the empty-content warning.
    A rejected [fetch] or [text()] and a throwing [translate] are an
    [inl] with the error; a fetch the timer aborted is rejected with an
    error named [AbortError]. *)
Record World := {
  nowAtGet : Z;
  nowAtSet : Z;
  parsesAsURL : string -> bool;
  createProxyAgent : string -> bool;
  fetch : string -> error + Response;
  translate : string -> error + string;
  createEmptyContentWarning : string -> Z -> string -> string
}.

Definition abortError : error := NativeError "AbortError".

(** [!s || s.trim().length === 0]. *)
Definition blank (s : string) : bool :=
  Js.isEmpty s || (Js.len (Js.trim s) =? 0)%Z.

(** The body of the [try] block, from [createProxyAgent] to the final
    [return]. *)
Definition tryBlock (w : World) (url : string) (timeoutMs : Z)
  (paginationOptions : PaginationOptions) (c : SimpleCache)
  : completion string * SimpleCache :=
  let proxyAgent := createProxyAgent w url in
  match fetch w url with
  | inl e => (Thrown (createNetworkError e url proxyAgent timeoutMs), c)
  | inr response =>
      if negb (ok response)
      then
        let responseBody :=
          match text response with
          | inr body => body
          | inl _ => "[Could not read response body]"
          end in
        (Thrown (createServerError (status response) (statusText response)
                   responseBody url), c)
      else
        match text response with
        | inl e => (Thrown (createContentError "Failed to read website content" url), c)
          (* the source appends [e.message]; the message is not kept *)
        | inr html =>
            if blank html
            then (Thrown (createContentError "Website returned empty content." url), c)
            else
              match translate w html with
              | inl e => (Thrown (createConversionError e url html), c)
              | inr markdown =>
                  if blank markdown
                  then (Returned (createEmptyContentWarning w url (Js.len html) html), c)
                  else
                    let c' := Cache.set (nowAtSet w) url html markdown c in
                    (applyPaginationOptions markdown paginationOptions, c')
              end
        end
  end.

(** The [catch] clause: what is thrown in place of [e]. *)
Definition catchClause (url : string) (timeoutMs : Z) (e : error) : error :=
  if String.eqb (error_name e) "AbortError" then createTimeoutError timeoutMs url
  else if String.eqb (error_name e) "MCPSearXNGError" then e
  else createUnexpectedError e url.

(** [fetchAndConvertToMarkdown(server, url, timeoutMs, paginationOptions)]
    run against the shared [urlCache] in state [c].  Logging goes to a sink
    whose failures never reach the caller and is left out; so is the
    timer, which [finally] clears on every path. *)
Definition fetchAndConvertToMarkdown (w : World) (url : string) (timeoutMs : Z)
  (paginationOptions : PaginationOptions) (c : SimpleCache)
  : completion string * SimpleCache :=
  match Cache.get (nowAtGet w) url c with
  | (Some cachedEntry, c1) =>
      (applyPaginationOptions (markdownContent cachedEntry) paginationOptions, c1)
  | (None, c1) =>
      if negb (parsesAsURL w url)
      then (Thrown (createURLFormatError url), c1)
      else
        match tryBlock w url timeoutMs paginationOptions c1 with
        | (Thrown e, c2) => (Thrown (catchClause url timeoutMs e), c2)
        | other => other
        end
  end.

(** ** Vocabulary of the statements

    The definitions below are not taken from the sources: they say, in
    the terms of the specification, what the theorems of Part II compare
    the code with, and name the inputs of the examples. *)

(** The characters of [s] whose index [i] satisfies [a <= i < b], the
    first character having index [i0]. *)
Fixpoint charsBetween (i0 : Z) (s : string) (a b : Z) : string :=
  match s with
  | EmptyString => EmptyString
  | String c s' =>
      if ((a <=? i0) && (i0 <? b))%Z
      then String c (charsBetween (i0 + 1) s' a b)
      else charsBetween (i0 + 1) s' a b
  end.

(** The substring of [s] from index [a] up to, excluding, index [b]. *)
Definition substringBetween (s : string) (a b : Z) : string := charsBetween 0 s a b.

(** The character window as the specification words it, [maxLength]
    limiting the window whenever it is given. *)
Definition windowAsSpecified (text : string) (startChar : Z) (maxLength : option Z) : string :=
  if (startChar >=? Js.len text)%Z then EmptyString
  else
    let start := Z.max 0 startChar in
    match maxLength with
    | Some m => substringBetween text start (Z.min (Js.len text) (start + m))
    | None => substringBetween text start (Js.len text)
    end.

Definition windowOnly (s m : option Z) : PaginationOptions :=
  {| startChar := s; maxLength := m; section := None;
     paragraphRange := None; readHeadings := None |}.

Definition noOptions : PaginationOptions :=
  {| startChar := None; maxLength := None; section := None;
     paragraphRange := None; readHeadings := None |}.

Definition sectionOnly (heading : string) : PaginationOptions :=
  {| startChar := None; maxLength := None; section := Some heading;
     paragraphRange := None; readHeadings := None |}.

Definition rangeOnly (range : string) : PaginationOptions :=
  {| startChar := None; maxLength := None; section := None;
     paragraphRange := Some range; readHeadings := None |}.

(** A sequence of runs of the pipeline against the shared cache, each
    with its own collaborators and arguments. *)
Record Run := {
  world : World;
  runUrl : string;
  runTimeout : Z;
  runOptions : PaginationOptions
}.

Definition afterRun (c : SimpleCache) (r : Run) : SimpleCache :=
  snd (fetchAndConvertToMarkdown (world r) (runUrl r) (runTimeout r) (runOptions r) c).

Definition afterRuns (c : SimpleCache) (rs : list Run) : SimpleCache :=
  fold_left afterRun rs c.

(** Worlds of the examples: a page served at time 1000, converted by a
    converter that strips nothing; the same with a fetch the timer
    aborts; the same with a converter that answers white space. *)
Definition examplePage : Response :=
  {| ok := true; status := 200; statusText := "OK"; text := inr "<p>hello</p>" |}.

Definition servingWorld : World :=
  {| nowAtGet := 1000; nowAtSet := 1001;
     parsesAsURL := fun _ => true;
     createProxyAgent := fun _ => false;
     fetch := fun _ => inr examplePage;
     translate := fun html => inr html;
     createEmptyContentWarning := fun url _ _ => "Empty content: " ++ url |}.

Definition abortingWorld : World :=
  {| nowAtGet := 1000; nowAtSet := 1001;
     parsesAsURL := fun _ => true;
     createProxyAgent := fun _ => false;
     fetch := fun _ => inl abortError;
     translate := fun html => inr html;
     createEmptyContentWarning := fun url _ _ => "Empty content: " ++ url |}.

Definition blankingWorld : World :=
  {| nowAtGet := 1000; nowAtSet := 1001;
     parsesAsURL := fun _ => true;
     createProxyAgent := fun _ => false;
     fetch := fun _ => inr examplePage;
     translate := fun _ => inr "  ";
     createEmptyContentWarning := fun url _ _ => "Empty content: " ++ url |}.

Definition exampleUrl : string := "https://example.com/".

Definition exampleEntry : CacheEntry :=
  {| htmlContent := "<p>hello</p>"; markdownContent := "hello"; timestamp := 1000 |}.


(** Every entry of the cache holds converted text that is neither empty
    nor white space only. *)
Definition nonBlankEntries (c : SimpleCache) : Prop :=
  forall url entry, cache c !! url = Some entry -> blank (markdownContent entry) = false.


(** A number of the range syntax: a non-empty string of decimal digits. *)
Fixpoint allDigits (s : string) : bool :=
  match s with
  | EmptyString => true
  | String c s' => Js.isDigit c && allDigits s'
  end.

Definition isNumber (s : string) : Prop := s <> EmptyString /\ allDigits s = true.

(** The range strings of the specification: N, N- and N-M. *)
Inductive RangeSyntax : string -> Prop :=
| RangeSingle n : isNumber n -> RangeSyntax n
| RangeFrom n : isNumber n -> RangeSyntax (n ++ "-")
| RangeFromTo n m : isNumber n -> isNumber m -> RangeSyntax (n ++ "-" ++ m).



Definition threeParagraphs : string :=
  "first" ++ NLNL ++ "second" ++ NLNL ++ "third".


Definition startsWithDigit (s : string) : bool :=
  match s with
  | String c _ => Js.isDigit c
  | EmptyString => false
  end.


Definition withParagraphRange (range : option string) (o : PaginationOptions)
  : PaginationOptions :=
  {| startChar := startChar o; maxLength := maxLength o; section := section o;
     paragraphRange := range; readHeadings := readHeadings o |}.


(** A line of [k] number signs. *)
Fixpoint hashes (k : nat) : string :=
  match k with
  | O => EmptyString
  | S k' => String Js.HASH (hashes k')
  end.

(** The heading level of a line: the number of number signs it starts
    with, 0 for a line that is no heading. *)
Definition headingLevel (line : string) : nat := Js.leading Js.HASH line.

(** A heading line in the sense of [extractHeadings]: 1 to 6 number signs
    followed by a white-space character. *)
Definition HeadingLine (line : string) : Prop :=
  exists k w rest,
    (1 <= k <= 6)%nat /\ Js.isWhiteSpace w = true /\ line = hashes k ++ String w rest.

Definition isHeadingLine (line : string) : bool :=
  let k := headingLevel line in
  Nat.leb 1 k && Nat.leb k 6
  && match String.get k line with
     | Some c => Js.isWhiteSpace c
     | None => false
     end.

(** The first [n] characters of [s] exist and satisfy [P]; [s] without
    its first [n] characters. *)
Fixpoint allFirst (P : ascii -> bool) (n : nat) (s : string) : bool :=
  match n with
  | O => true
  | S n' =>
      match s with
      | String c s' => P c && allFirst P n' s'
      | EmptyString => false
      end
  end.

Fixpoint skipChars (n : nat) (s : string) : string :=
  match n with
  | O => s
  | S n' =>
      match s with
      | String _ s' => skipChars n' s'
      | EmptyString => EmptyString
      end
  end.

(** The matcher of a term that takes one character satisfying [P]. *)
Definition single (P : ascii -> bool) : nat -> string -> RegExp.cont -> bool :=
  fun pos s k =>
    match s with
    | String d s' => P d && k (S pos) s'
    | EmptyString => false
    end.

(** The syntax characters of the pattern grammar. *)
Definition isPatternSyntax (c : ascii) : bool :=
  Ascii.eqb c "^" || Ascii.eqb c "$" || Ascii.eqb c "\" || Ascii.eqb c "."
  || Ascii.eqb c "*" || Ascii.eqb c "+" || Ascii.eqb c "?" || Ascii.eqb c "("
  || Ascii.eqb c ")" || Ascii.eqb c "[" || Ascii.eqb c "]" || Ascii.eqb c "{"
  || Ascii.eqb c "}" || Ascii.eqb c "|".

(** A heading text without syntax characters. *)
Fixpoint plainText (h : string) : bool :=
  match h with
  | EmptyString => true
  | String c h' => negb (isPatternSyntax c) && plainText h'
  end.

(** Every character of [s] satisfies [P]. *)
Fixpoint allChars (P : ascii -> bool) (s : string) : bool :=
  match s with
  | EmptyString => true
  | String c s' => P c && allChars P s'
  end.

Definition notLineTerminator (c : ascii) : bool := negb (Js.isLineTerminator c).

Definition noLineTerminator (s : string) : bool := allChars notLineTerminator s.

(** Equality of two strings up to the case of their characters. *)
Fixpoint eqIgnoreCase (a b : string) : bool :=
  match a, b with
  | EmptyString, EmptyString => true
  | String c a', String d b' =>
      (RegExp.canonicalize c =? RegExp.canonicalize d)%N && eqIgnoreCase a' b'
  | _, _ => false
  end.

(** A section start in the sense of [extractSection], for a plain heading
    text [h]: a line that begins with a number sign and, after it, holds
    [h] up to case, the characters around [h] being no line terminators. *)
Definition SectionStart (h line : string) : Prop :=
  exists u h' v,
    line = String Js.HASH (u ++ h' ++ v)
    /\ noLineTerminator u = true
    /\ noLineTerminator v = true
    /\ eqIgnoreCase h h' = true.

(** The syntax tree of the section pattern of a plain heading text. *)
Fixpoint literal (base : RegExp.regex) (h : string) : RegExp.regex :=
  match h with
  | EmptyString => base
  | String c h' => literal (RegExp.Seq base (RegExp.Chr c)) h'
  end.

Definition anyChars : RegExp.regex := RegExp.Quant RegExp.Dot 0 None.

Definition sectionPrefix : RegExp.regex :=
  RegExp.Seq
    (RegExp.Seq
       (RegExp.Seq (RegExp.Seq RegExp.Empty RegExp.Bol)
          (RegExp.Quant (RegExp.Chr "#") 1 (Some 6)))
       (RegExp.Quant (RegExp.Chr "s") 0 None))
    anyChars.

Definition sectionRegexOf (h : string) : RegExp.regex :=
  RegExp.Seq (RegExp.Seq (literal sectionPrefix h) anyChars) RegExp.Eol.

(** [s] starts with [h] up to case: what follows [h] in [s]. *)
Fixpoint afterIgnoreCase (h s : string) : option string :=
  match h with
  | EmptyString => Some s
  | String c h' =>
      match s with
      | String d s' =>
          if (RegExp.canonicalize c =? RegExp.canonicalize d)%N
          then afterIgnoreCase h' s'
          else None
      | EmptyString => None
      end
  end.


(** The document of the level-aware scenario and one whose third line
    ends a section without being a heading line. *)
Definition levelsDocument : string :=
  "# A" ++ NL ++ "## B" ++ NL ++ "text1" ++ NL ++ "# C" ++ NL ++ "text2".


Definition headingsOnly : PaginationOptions :=
  {| startChar := Some 2%Z; maxLength := Some 3%Z; section := Some "C";
     paragraphRange := Some "1"; readHeadings := Some true |}.

(** A line ends a section of level [level]: it starts with number signs,
    at most [level] of them. *)
Definition endsSection (level : nat) (line : string) : Prop :=
  (1 <= headingLevel line <= level)%nat.


(** The continuation [k] restricted to the inputs that are not longer
    than [s]. *)
Definition bounded (s : string) (k : RegExp.cont) : RegExp.cont :=
  fun p t => Nat.leb (String.length t) (String.length s) && k p t.


(** The optional group of [rangeRegex]: a hyphen and a run of digits. *)
Definition rangeEnd : RegExp.regex :=
  RegExp.Seq (RegExp.Seq RegExp.Empty (RegExp.Chr "-"))
    (RegExp.Seq RegExp.Empty (RegExp.Quant (RegExp.Esc RegExp.Digit) 0 None)).


(** ** The cache object and its timer ([cache.ts], constructor and [destroy]) *)

(** A [SimpleCache] instance with the handle of its sweep timer, [None]
    once the timer has been stopped. *)
Record CacheObject := {
  store : SimpleCache;
  cleanupInterval : option nat
}.

Module CacheObject.

(** [new SimpleCache(ttlMs)]: [handle] is what [setInterval] returns and
    [active] the interval timers of the runtime. *)
Definition construct (ttl : option Z) (handle : nat) (active : gset nat)
  : CacheObject * gset nat :=
  ({| store := Cache.create ttl; cleanupInterval := Some handle |}, {[handle]} ∪ active).

(** One tick of the interval timer. *)
Definition tick (now : Z) (o : CacheObject) : CacheObject :=
  {| store := Cache.cleanupExpired now (store o); cleanupInterval := cleanupInterval o |}.

(** [destroy()]. *)
Definition destroy (o : CacheObject) (active : gset nat) : CacheObject * gset nat :=
  match cleanupInterval o with
  | Some handle =>
      ({| store := Cache.clear (store o); cleanupInterval := None |}, active ∖ {[handle]})
  | None =>
      ({| store := Cache.clear (store o); cleanupInterval := None |}, active)
  end.

End CacheObject.

(** ** Logging (the logging module of the second source document) *)

Module Logging.

(** The array [levels] of [shouldLog]. *)
Definition levels : list string := "debug" :: "info" :: "warning" :: "error" :: nil.

(** [arr.indexOf(x)]: the first index of [x], -1 when it does not occur. *)
Fixpoint indexOf_from (x : string) (l : list string) (i : Z) : Z :=
  match l with
  | nil => (-1)%Z
  | y :: l' => if String.eqb y x then i else indexOf_from x l' (i + 1)
  end.

Definition indexOf (x : string) (l : list string) : Z := indexOf_from x l 0.

(** The module variable [currentLogLevel] starts as ["info"].  A level is
    the string the SDK's [LoggingLevel] type allows at run time. *)
Definition initialLogLevel : string := "info".

(** [shouldLog(level)] with the module variable passed in. *)
Definition shouldLog (currentLogLevel level : string) : bool :=
  (indexOf level levels >=? indexOf currentLogLevel levels)%Z.

(** [setLogLevel(level)]: the new value of the module variable. *)
Definition setLogLevel (level : string) (currentLogLevel : string) : string := level.

Definition getCurrentLogLevel (currentLogLevel : string) : string := currentLogLevel.

End Logging.

(** The levels of the SDK's [LoggingLevel] that [shouldLog] does not list. *)
Definition unlistedLevel (level : string) : Prop := ~ In level Logging.levels.

(** The rank of a listed level. *)
Definition levelRank (level : string) : Z := Logging.indexOf level Logging.levels.


(** Options with the values the code takes for "not set" removed: an
    empty section or range string, and [readHeadings] false. *)
Definition dropEmpty (s : option string) : option string :=
  match s with
  | Some EmptyString => None
  | other => other
  end.

Definition unsetFalsy (o : PaginationOptions) : PaginationOptions :=
  {| startChar := startChar o;
     maxLength := maxLength o;
     section := dropEmpty (section o);
     paragraphRange := dropEmpty (paragraphRange o);
     readHeadings := match readHeadings o with Some false => None | other => other end |}.

Definition falsyOptions : PaginationOptions :=
  {| startChar := None; maxLength := None; section := Some EmptyString;
     paragraphRange := Some EmptyString; readHeadings := Some false |}.


(** A string without line feed: what a line of [split('\n')] is. *)
Definition noLF (s : string) : bool := allChars (fun c => negb (Ascii.eqb c Js.LF)) s.


(** A world whose network is down and whose URL parser rejects
    everything: only a cache hit can succeed in it. *)
Definition offlineWorld (now : Z) : World :=
  {| nowAtGet := now; nowAtSet := now;
     parsesAsURL := fun _ => false;
     createProxyAgent := fun _ => false;
     fetch := fun _ => inl (NativeError "TypeError");
     translate := fun _ => inl (NativeError "Error");
     createEmptyContentWarning := fun url _ _ => "Empty content: " ++ url |}.

Definition cachedHello : SimpleCache :=
  Cache.set 1000 exampleUrl "<p>hello</p>" "hello" (Cache.create None).


Definition expiredHello : SimpleCache :=
  Cache.set 1000 exampleUrl "<p>old</p>" "old" (Cache.create None).

Definition lateWorld : World :=
  {| nowAtGet := 100000; nowAtSet := 100001;
     parsesAsURL := fun _ => true;
     createProxyAgent := fun _ => false;
     fetch := fun _ => inr examplePage;
     translate := fun html => inr html;
     createEmptyContentWarning := fun url _ _ => "Empty content: " ++ url |}.

(** ** Vocabulary of the section start *)

(** The small letters among the code units 0..255 whose capital is a code
    unit of that range: a to z, and the small letters of Latin-1 from a
    with grave to thorn (the division sign, at 247, is no letter; the
    capitals of the micro sign and of y with diaeresis lie above 255, and
    the sharp s has none). *)
Definition isSmallLetter (c : ascii) : bool :=
  let n := Js.code c in
  (((97 <=? n) && (n <=? 122))
   || ((224 <=? n) && (n <=? 254) && negb (n =? 247)))%N.

(** The capital of a small letter stands 32 places before it. *)
Definition isCapitalOf (C c : ascii) : bool :=
  isSmallLetter c && (Js.code C + 32 =? Js.code c)%N.

(** Two characters that are the same letter up to case. *)
Definition sameLetter (c d : ascii) : bool :=
  Ascii.eqb c d || isCapitalOf c d || isCapitalOf d c.

(** Two strings of the same length whose characters are pairwise the same
    letter up to case. *)
Fixpoint sameUpToCase (a b : string) : bool :=
  match a, b with
  | EmptyString, EmptyString => true
  | String c a', String d b' => sameLetter c d && sameUpToCase a' b'
  | _, _ => false
  end.

(** [line] holds the text [h] up to case, at some position. *)
Fixpoint startsUpToCase (h s : string) : bool :=
  match h, s with
  | EmptyString, _ => true
  | String c h', String d s' => sameLetter c d && startsUpToCase h' s'
  | String _ _, EmptyString => false
  end.

Fixpoint holdsUpToCase (h line : string) : bool :=
  startsUpToCase h line
  || match line with
     | String _ line' => holdsUpToCase h line'
     | EmptyString => false
     end.

(** The code units 0..255. *)
Definition allAscii : list ascii := List.map ascii_of_nat (List.seq 0 256).

(** A document whose first heading shares two letters with the second,
    and one with Windows line ends. *)
Definition whyDocument : string :=
  "# What is new" ++ NL ++ "a" ++ NL ++ "# Why?" ++ NL ++ "b".

Definition crlfDocument : string :=
  "# A" ++ String Js.CR NL ++ "body".

Definition installDocument : string :=
  "# Intro" ++ NL ++ "x" ++ NL ++ "## INSTALL Guide" ++ NL ++ "run" ++ NL
  ++ "### Details" ++ NL ++ "more" ++ NL ++ "## Usage" ++ NL ++ "y".

(** ** Vocabulary of the paragraph range *)







(** A heading line for the requested text [h]: a line that begins with a
    number sign and, after it, holds [h] up to case, the other characters
    after the number sign being no line terminators. *)
Definition HeadingWith (h line : string) : Prop :=
  exists u h' v,
    line = String Js.HASH (u ++ h' ++ v)
    /\ noLineTerminator u = true
    /\ noLineTerminator v = true
    /\ sameUpToCase h h' = true.

(* ===================================================================== *)
(** * Part II: properties                                                 *)
(* ===================================================================== *)

(** ** Strings *)

Lemma charsBetween_empty s : forall i a b, (b <= i)%Z -> charsBetween i s a b = EmptyString.
Proof.
  induction s as [|c s IH]; intros i a b H; simpl; [reflexivity|].
  replace ((a <=? i) && (i <? b))%Z with false.
  - apply IH. lia.
  - symmetry. apply andb_false_iff. right. apply Z.ltb_ge. lia.
Qed.

Lemma charsBetween_started s : forall i a b,
  (a <= i)%Z -> charsBetween i s a b = substring 0 (Z.to_nat (b - i)) s.
Proof.
  induction s as [|c s IH]; intros i a b H; simpl.
  - destruct (Z.to_nat (b - i)); reflexivity.
  - destruct (Z.ltb_spec i b) as [Hlt|Hge].
    + replace (a <=? i)%Z with true by (symmetry; apply Z.leb_le; lia). simpl.
      replace (Z.to_nat (b - i)) with (S (Z.to_nat (b - (i + 1)))) by lia.
      f_equal. apply IH. lia.
    + rewrite andb_false_r. replace (Z.to_nat (b - i)) with O by lia.
      apply charsBetween_empty. lia.
Qed.

Lemma charsBetween_substring s : forall i (n : nat) b,
  charsBetween i s (i + Z.of_nat n) b
  = substring n (Z.to_nat (b - (i + Z.of_nat n))) s.
Proof.
  induction s as [|c s IH]; intros i n b.
  - simpl. destruct n; simpl;
      try match goal with |- context [Z.to_nat ?z] => destruct (Z.to_nat z) end;
      reflexivity.
  - destruct n as [|n].
    + rewrite charsBetween_started by lia. f_equal. lia.
    + cbn [charsBetween substring].
      replace (i + Z.of_nat (S n) <=? i)%Z with false
        by (symmetry; apply Z.leb_gt; lia).
      cbn [andb].
      replace (i + Z.of_nat (S n))%Z with ((i + 1) + Z.of_nat n)%Z by lia.
      apply IH.
Qed.

Lemma slice_between s (a b : Z) :
  (0 <= a <= Js.len s)%Z -> (0 <= b)%Z ->
  Js.slice s a (Some b) = substringBetween s a (Z.min b (Js.len s)).
Proof.
  intros Ha Hb. unfold Js.slice, substringBetween.
  replace (a <? 0)%Z with false by (symmetry; apply Z.ltb_ge; lia).
  replace (b <? 0)%Z with false by (symmetry; apply Z.ltb_ge; lia).
  rewrite (Z.min_l a) by lia.
  replace a with (0 + Z.of_nat (Z.to_nat a))%Z at 3 by lia.
  rewrite charsBetween_substring. f_equal. lia.
Qed.

Lemma append_cons c s t : String c s ++ t = String c (s ++ t).
Proof. reflexivity. Qed.

Lemma append_nil s : EmptyString ++ s = s.
Proof. reflexivity. Qed.

Lemma substring_all s : substring 0 (String.length s) s = s.
Proof. induction s as [|c s IH]; simpl; [reflexivity | now rewrite IH]. Qed.

Lemma substringBetween_all s : substringBetween s 0 (Js.len s) = s.
Proof.
  unfold substringBetween. rewrite charsBetween_started by lia.
  unfold Js.len. replace (Z.to_nat (Z.of_nat (String.length s) - 0)) with (String.length s) by lia.
  apply substring_all.
Qed.

(** ** Character window *)

(** What [applyCharacterPagination] computes, in the words of the
    specification: a [maxLength] of 0 counts as no [maxLength]. *)
Lemma applyCharacterPagination_window (text : string) (startChar maxLength : option Z) :
  (forall m, maxLength = Some m -> (0 <= m)%Z) ->
  applyCharacterPagination text startChar maxLength
  = windowAsSpecified text
      (match startChar with Some s => s | None => 0%Z end)
      (match maxLength with Some 0%Z => None | other => other end).
Proof.
  intros Hm. unfold applyCharacterPagination, windowAsSpecified.
  set (s := match startChar with Some s => s | None => 0%Z end).
  destruct (s >=? Js.len text)%Z eqn:Hs; [reflexivity|].
  assert (Hlt : (s < Js.len text)%Z) by (rewrite Z.geb_leb in Hs; apply Z.leb_gt in Hs; lia).
  assert (Hlen : (0 <= Js.len text)%Z) by (unfold Js.len; lia).
  destruct maxLength as [m|].
  - specialize (Hm m eq_refl). unfold Js.truthyNumber.
    destruct (Z.eqb_spec m 0) as [->|Hne]; simpl.
    + rewrite slice_between by lia. now rewrite Z.min_id.
    + destruct m as [|p|p]; try lia.
      rewrite slice_between by lia. f_equal. lia.
  - rewrite slice_between by lia. now rewrite Z.min_id.
Qed.

(** C4, as stated, fails: with [maxLength = 0] the claim asks for the
    substring from 0 to min(5, 0 + 0) = 0 of ["hello"], the empty string,
    and the code returns the whole text. *)
Lemma character_window_zero_maxLength :
  applyCharacterPagination "hello" (Some 0%Z) (Some 0%Z) = "hello"
  /\ windowAsSpecified "hello" 0 (Some 0%Z) = EmptyString
  /\ applyCharacterPagination "hello" (Some 0%Z) (Some 0%Z)
     <> windowAsSpecified "hello" 0 (Some 0%Z).
Proof. repeat split. vm_compute. discriminate. Qed.

(** C4, amended.  For every text and every window whose [maxLength], when
    given, is not negative: if [startChar] (0 when absent) is at least the
    length of the text the result is empty; otherwise it is the substring
    from max(0, startChar) to min(length, start + maxLength) when
    [maxLength] is given and is not 0, and to the end of the text when
    [maxLength] is absent or 0.  [applyPaginationOptions] returns this
    window when no other option is set. *)
Theorem character_window (text : string) (startChar maxLength : option Z) :
  (forall m, maxLength = Some m -> (0 <= m)%Z) ->
  let s := match startChar with Some s => s | None => 0%Z end in
  let limit := match maxLength with Some 0%Z => None | other => other end in
  applyCharacterPagination text startChar maxLength = windowAsSpecified text s limit
  /\ applyPaginationOptions text (windowOnly startChar maxLength)
     = Returned (windowAsSpecified text s limit)
  /\ ((s >= Js.len text)%Z -> windowAsSpecified text s limit = EmptyString).
Proof.
  intros Hm s limit. split; [|split].
  - now apply applyCharacterPagination_window.
  - unfold applyPaginationOptions, paragraphStep, characterStep; cbn.
    destruct startChar as [s0|], maxLength as [m|]; cbn;
      try (f_equal; now apply applyCharacterPagination_window).
    subst s limit. unfold windowAsSpecified.
    destruct (0 >=? Js.len text)%Z eqn:H0.
    + destruct text; [reflexivity|].
      rewrite Z.geb_leb in H0. apply Z.leb_le in H0.
      unfold Js.len in H0. simpl String.length in H0. lia.
    + now rewrite substringBetween_all.
  - intros Hs. unfold windowAsSpecified.
    replace (s >=? Js.len text)%Z with true; [reflexivity|].
    symmetry. rewrite Z.geb_leb. apply Z.leb_le. lia.
Qed.

Lemma character_window_witness :
  (forall m, Some 2%Z = Some m -> (0 <= m)%Z)
  /\ applyCharacterPagination "hello" (Some 1%Z) (Some 2%Z) = "el".
Proof.
  split.
  - intros m H. injection H as <-. lia.
  - refine (proj1 (character_window "hello" (Some 1%Z) (Some 2%Z) _)).
    intros m H. injection H as <-. lia.
Defined.

(** ** Document cache *)

Lemma cache_get_absent now url c :
  cache c !! url = None -> Cache.get now url c = (None, c).
Proof. intros H. unfold Cache.get. now rewrite H. Qed.

Lemma cache_get_present now url c entry :
  cache c !! url = Some entry ->
  Cache.get now url c
  = if (now - timestamp entry >? ttlMs c)%Z
    then (None, {| cache := delete url (cache c); ttlMs := ttlMs c |})
    else (Some entry, c).
Proof. intros H. unfold Cache.get, Cache.expired. now rewrite H. Qed.

(** C7.  [get(url)] returns the stored entry exactly when an entry for
    [url] is present and its age [now - timestamp] is at most the TTL, and
    then leaves the cache as it is; otherwise it returns nothing, and an
    entry for [url] that was present (hence expired) is deleted by the
    same call, the other entries staying in place. *)
Theorem cache_get (now : Z) (url : string) (c : SimpleCache) :
  (forall entry,
      fst (Cache.get now url c) = Some entry
      <-> cache c !! url = Some entry /\ (now - timestamp entry <= ttlMs c)%Z)
  /\ (forall entry, fst (Cache.get now url c) = Some entry -> snd (Cache.get now url c) = c)
  /\ (fst (Cache.get now url c) = None ->
      cache (snd (Cache.get now url c)) !! url = None
      /\ (forall other, other <> url ->
            cache (snd (Cache.get now url c)) !! other = cache c !! other)
      /\ ttlMs (snd (Cache.get now url c)) = ttlMs c).
Proof.
  destruct (cache c !! url) as [e|] eqn:He.
  - rewrite (cache_get_present _ _ _ _ He).
    destruct (Z.gtb_spec (now - timestamp e) (ttlMs c)) as [Hexp|Hlive]; cbn.
    + split; [|split].
      * intros entry. split; [discriminate|]. intros [[= <-] Hage]. lia.
      * discriminate.
      * intros _. split; [apply lookup_delete_eq|]. split; [|reflexivity].
        intros other Hne. now apply lookup_delete_ne.
    + split; [|split].
      * intros entry. split.
        -- intros [= <-]. split; [reflexivity | lia].
        -- now intros [[= <-] _].
      * reflexivity.
      * discriminate.
  - rewrite (cache_get_absent _ _ _ He). cbn. split; [|split].
    + intros entry. split; [discriminate | now intros [? _]].
    + discriminate.
    + intros _. split; [assumption|]. split; [|reflexivity]. reflexivity.
Qed.

Lemma cache_get_witness :
  fst (Cache.get 1500 exampleUrl
         (Cache.set 1000 exampleUrl "<p>hello</p>" "hello" (Cache.create None)))
  = Some exampleEntry.
Proof.
  apply (proj1 (cache_get 1500 exampleUrl _)). split.
  - apply lookup_insert_eq.
  - cbn. lia.
Defined.

Lemma cache_get_subset now url c other entry :
  cache (snd (Cache.get now url c)) !! other = Some entry -> cache c !! other = Some entry.
Proof.
  unfold Cache.get. destruct (cache c !! url) as [e|] eqn:He; [|trivial].
  destruct (Cache.expired now c e); [|trivial]. cbn.
  intros H. apply lookup_delete_Some in H. tauto.
Qed.

Lemma cache_get_miss now url c :
  fst (Cache.get now url c) = None -> cache (snd (Cache.get now url c)) !! url = None.
Proof.
  unfold Cache.get. destruct (cache c !! url) as [e|] eqn:He; [|now intros _].
  destruct (Cache.expired now c e); cbn; [|discriminate].
  intros _. apply lookup_delete_eq.
Qed.

(** ** Retrieval pipeline *)

Lemma pipeline_on_miss w url timeoutMs opts c :
  fst (Cache.get (nowAtGet w) url c) = None ->
  parsesAsURL w url = true ->
  fetchAndConvertToMarkdown w url timeoutMs opts c
  = match tryBlock w url timeoutMs opts (snd (Cache.get (nowAtGet w) url c)) with
    | (Thrown e, c2) => (Thrown (catchClause url timeoutMs e), c2)
    | other => other
    end.
Proof.
  intros Hmiss Hurl. unfold fetchAndConvertToMarkdown.
  destruct (Cache.get (nowAtGet w) url c) as [[entry|] c1]; cbn in *; [discriminate|].
  now rewrite Hurl.
Qed.

(** The [try] block writes to the cache at most once, and then an entry
    for [url] whose converted text is not blank. *)
Lemma tryBlock_cache w url timeoutMs opts c :
  snd (tryBlock w url timeoutMs opts c) = c
  \/ exists html markdown,
       blank markdown = false
       /\ snd (tryBlock w url timeoutMs opts c)
          = Cache.set (nowAtSet w) url html markdown c.
Proof.
  unfold tryBlock.
  destruct (fetch w url) as [e|response]; [now left|].
  destruct (ok response); cbn; [|now left].
  destruct (text response) as [e|html]; [now left|].
  destruct (blank html); [now left|].
  destruct (translate w html) as [e|markdown]; [now left|].
  destruct (blank markdown) eqn:Hb; [now left|].
  right. exists html, markdown. now split.
Qed.

Lemma pipeline_cache w url timeoutMs opts c :
  let c1 := snd (Cache.get (nowAtGet w) url c) in
  snd (fetchAndConvertToMarkdown w url timeoutMs opts c) = c1
  \/ exists html markdown,
       blank markdown = false
       /\ snd (fetchAndConvertToMarkdown w url timeoutMs opts c)
          = Cache.set (nowAtSet w) url html markdown c1.
Proof.
  unfold fetchAndConvertToMarkdown.
  destruct (Cache.get (nowAtGet w) url c) as [[entry|] c1]; cbn; [now left|].
  destruct (parsesAsURL w url); cbn; [|now left].
  destruct (tryBlock_cache w url timeoutMs opts c1) as [H|(html & md & Hb & H)].
  - left. destruct (tryBlock w url timeoutMs opts c1) as [[s|e|] c2]; cbn in *; assumption.
  - right. exists html, md. split; [assumption|].
    destruct (tryBlock w url timeoutMs opts c1) as [[s|e|] c2]; cbn in *; assumption.
Qed.

Lemma afterRun_entries c r url entry :
  cache (afterRun c r) !! url = Some entry ->
  cache c !! url = Some entry
  \/ (url = runUrl r /\ blank (markdownContent entry) = false).
Proof.
  unfold afterRun.
  destruct (pipeline_cache (world r) (runUrl r) (runTimeout r) (runOptions r) c)
    as [H|(html & md & Hb & H)]; rewrite H.
  - intros Hin. left. eapply cache_get_subset, Hin.
  - cbn. intros Hin. apply lookup_insert_Some in Hin as [[<- <-]|[Hne Hin]].
    + right. now split.
    + left. eapply cache_get_subset, Hin.
Qed.

Lemma afterRun_nonBlank c r : nonBlankEntries c -> nonBlankEntries (afterRun c r).
Proof.
  intros Hc url entry Hin.
  destruct (afterRun_entries _ _ _ _ Hin) as [Hold|[_ Hnew]]; [|assumption].
  eapply Hc, Hold.
Qed.

Lemma afterRuns_nonBlank rs : forall c, nonBlankEntries c -> nonBlankEntries (afterRuns c rs).
Proof.
  induction rs as [|r rs IH]; intros c Hc; [assumption|].
  cbn. apply IH. now apply afterRun_nonBlank.
Qed.

(** C3, the code at the failing input.  On the cache-miss path a rejected
    [fetch] always ends in the error of [createNetworkError], whatever the
    rejection was: the inner [catch] wraps it before the outer [catch]
    looks for the name [AbortError].  A fetch cancelled by the timeout is
    therefore reported as a [NetworkError], not as a [TimeoutError]. *)
Theorem rejected_fetch_is_network_error
  (w : World) (url : string) (timeoutMs : Z) (opts : PaginationOptions)
  (c : SimpleCache) (e : error) :
  fst (Cache.get (nowAtGet w) url c) = None ->
  parsesAsURL w url = true ->
  fetch w url = inl e ->
  fst (fetchAndConvertToMarkdown w url timeoutMs opts c)
  = Thrown (MCPSearXNGError NetworkError url).
Proof.
  intros Hmiss Hurl Hfetch. rewrite pipeline_on_miss by assumption.
  unfold tryBlock. rewrite Hfetch. reflexivity.
Qed.

Lemma rejected_fetch_is_network_error_witness :
  fetch abortingWorld exampleUrl = inl (NativeError "AbortError")
  /\ fst (fetchAndConvertToMarkdown abortingWorld exampleUrl 10000%Z noOptions
            (Cache.create None))
     = Thrown (MCPSearXNGError NetworkError exampleUrl)
  /\ Thrown (A := string) (MCPSearXNGError NetworkError exampleUrl)
     <> Thrown (createTimeoutError 10000%Z exampleUrl).
Proof.
  split; [reflexivity|]. split.
  - apply (rejected_fetch_is_network_error abortingWorld exampleUrl 10000%Z noOptions
             (Cache.create None) abortError); reflexivity.
  - discriminate.
Defined.

(** C8.  When conversion returns empty or white-space-only text, the run
    returns the warning string of [createEmptyContentWarning] and leaves
    the cache as the initial [get] left it, with no entry for the URL.
    Hence every entry the pipeline adds has converted text that is not
    blank, and a cache that starts empty holds only such entries after any
    sequence of runs. *)
Theorem degraded_success_never_cached :
  (forall w url timeoutMs opts c response html markdown,
      fst (Cache.get (nowAtGet w) url c) = None ->
      parsesAsURL w url = true ->
      fetch w url = inr response ->
      ok response = true ->
      text response = inr html ->
      blank html = false ->
      translate w html = inr markdown ->
      blank markdown = true ->
      fetchAndConvertToMarkdown w url timeoutMs opts c
      = (Returned (createEmptyContentWarning w url (Js.len html) html),
         snd (Cache.get (nowAtGet w) url c))
      /\ cache (snd (fetchAndConvertToMarkdown w url timeoutMs opts c)) !! url = None)
  /\ (forall c r url entry,
        cache (afterRun c r) !! url = Some entry ->
        cache c !! url = Some entry
        \/ (url = runUrl r /\ blank (markdownContent entry) = false))
  /\ (forall ttl rs, nonBlankEntries (afterRuns (Cache.create ttl) rs)).
Proof.
  split; [|split].
  - intros w url timeoutMs opts c response html markdown
      Hmiss Hurl Hfetch Hok Htext Hhtml Htr Hblank.
    assert (Hrun : fetchAndConvertToMarkdown w url timeoutMs opts c
                   = (Returned (createEmptyContentWarning w url (Js.len html) html),
                      snd (Cache.get (nowAtGet w) url c))).
    { rewrite pipeline_on_miss by assumption.
      unfold tryBlock. rewrite Hfetch, Hok, Htext. cbn.
      rewrite Hhtml, Htr, Hblank. reflexivity. }
    split; [assumption|]. rewrite Hrun. cbn. now apply cache_get_miss.
  - apply afterRun_entries.
  - intros ttl rs. apply afterRuns_nonBlank.
    intros url entry H. cbn in H. now rewrite lookup_empty in H.
Qed.

Lemma degraded_success_never_cached_witness :
  fetchAndConvertToMarkdown blankingWorld exampleUrl 10000%Z noOptions (Cache.create None)
  = (Returned "Empty content: https://example.com/", Cache.create None).
Proof.
  refine (proj1 (proj1 degraded_success_never_cached
                   blankingWorld exampleUrl 10000%Z noOptions (Cache.create None)
                   examplePage "<p>hello</p>" "  " _ _ _ _ _ _ _ _));
    reflexivity.
Defined.

(** ** Extraction engine: failure of the section step *)

Lemma unterminated_group : RegExp.create (sectionPattern "(") = RegExp.SyntaxError.
Proof. reflexivity. Qed.

Lemma nothing_to_repeat : RegExp.create (sectionPattern "C++") = RegExp.SyntaxError.
Proof. reflexivity. Qed.

(** C1, the code at the failing input.  The requested heading is spliced
    into the pattern without escaping, so a heading that is not a
    well-formed regular expression makes the constructor throw: for every
    text, the section ["("] (unterminated group) and the section ["C++"]
    (nothing to repeat) make [applyPaginationOptions] throw a SyntaxError
    where the claim promises a placeholder string. *)
Theorem section_with_pattern_syntax_throws (text : string) :
  applyPaginationOptions text (sectionOnly "(") = Thrown (NativeError "SyntaxError")
  /\ applyPaginationOptions text (sectionOnly "C++") = Thrown (NativeError "SyntaxError").
Proof.
  unfold applyPaginationOptions, extractSection; cbn [readHeadings section sectionOnly].
  rewrite unterminated_group, nothing_to_repeat. split; reflexivity.
Qed.

(** ** Paragraph ranges *)

Lemma isEmpty_true s : Js.isEmpty s = true <-> s = EmptyString.
Proof. destruct s; cbn; split; congruence. Qed.

Lemma isEmpty_false s : Js.isEmpty s = false <-> s <> EmptyString.
Proof. destruct s; cbn; split; congruence. Qed.

Lemma len_positive s : (Js.len s >? 0)%Z = negb (Js.isEmpty s).
Proof. destruct s; reflexivity. Qed.

Lemma digitValue_nonneg c : Js.isDigit c = true -> (0 <= Js.digitValue c)%Z.
Proof.
  unfold Js.isDigit, Js.digitValue. intros H.
  apply andb_true_iff in H as [H _]. apply N.leb_le in H. lia.
Qed.

Lemma parseDigits_nonneg s : forall acc,
  allDigits s = true -> (0 <= acc)%Z -> (0 <= Js.parseDigits acc s)%Z.
Proof.
  induction s as [|c s IH]; intros acc Hd Hacc; cbn in *; [assumption|].
  apply andb_true_iff in Hd as [Hc Hd]. apply IH; [assumption|].
  pose proof (digitValue_nonneg c Hc). lia.
Qed.

Lemma parseInt_nonneg s : allDigits s = true -> (0 <= Js.parseInt s)%Z.
Proof. intros H. apply parseDigits_nonneg; [assumption | lia]. Qed.

(** [digits_prefix] splits a string into its digits and a rest that does
    not start with a digit. *)
Lemma digits_prefix_spec s :
  s = fst (Js.digits_prefix s) ++ snd (Js.digits_prefix s)
  /\ allDigits (fst (Js.digits_prefix s)) = true
  /\ startsWithDigit (snd (Js.digits_prefix s)) = false.
Proof.
  induction s as [|c s (IH1 & IH2 & IH3)]; cbn; [auto|].
  destruct (Js.isDigit c) eqn:Hc.
  - destruct (Js.digits_prefix s) as [d r]; cbn in *.
    rewrite Hc, IH2. split; [now f_equal|]. split; [reflexivity|assumption].
  - cbn. rewrite Hc. auto.
Qed.

Lemma digits_prefix_app d r :
  allDigits d = true -> startsWithDigit r = false -> Js.digits_prefix (d ++ r) = (d, r).
Proof.
  intros Hd Hr. induction d as [|c d IH]; cbn in *.
  - destruct r as [|c r]; cbn in *; [reflexivity | now rewrite Hr].
  - apply andb_true_iff in Hd as [Hc Hd]. rewrite Hc, IH by assumption. reflexivity.
Qed.

Lemma append_empty_r s : s ++ EmptyString = s.
Proof. induction s as [|c s IH]; cbn; [reflexivity | now rewrite IH]. Qed.

Lemma matchRange_single n : isNumber n -> matchRange n = Some (n, None).
Proof.
  intros [Hne Hd]. unfold matchRange.
  rewrite <- (append_empty_r n) at 1. rewrite digits_prefix_app by auto.
  apply isEmpty_false in Hne. now rewrite Hne.
Qed.

Lemma matchRange_from n : isNumber n -> matchRange (n ++ "-") = Some (n, Some EmptyString).
Proof.
  intros [Hne Hd]. unfold matchRange.
  rewrite digits_prefix_app by auto.
  apply isEmpty_false in Hne. now rewrite Hne.
Qed.

Lemma matchRange_from_to n m :
  isNumber n -> allDigits m = true -> matchRange (n ++ "-" ++ m) = Some (n, Some m).
Proof.
  intros [Hne Hd] Hm. unfold matchRange.
  rewrite digits_prefix_app by auto.
  apply isEmpty_false in Hne. rewrite Hne.
  change ("-" ++ m) with (String "-" m). cbv iota beta.
  rewrite <- (append_empty_r m) at 1. rewrite digits_prefix_app by auto.
  reflexivity.
Qed.

(** Whatever [matchRange] accepts is written in the range syntax. *)
Lemma matchRange_syntax range g1 g2 :
  matchRange range = Some (g1, g2) -> RangeSyntax range.
Proof.
  unfold matchRange.
  destruct (digits_prefix_spec range) as (Heq & Hd & Hr).
  destruct (Js.digits_prefix range) as [d1 r1]; cbn in *.
  destruct (Js.isEmpty d1) eqn:He; [discriminate|].
  apply isEmpty_false in He.
  destruct r1 as [|c r2].
  - intros _. rewrite Heq, append_empty_r. now apply RangeSingle.
  - destruct (Ascii.eqb_spec c "-") as [->|Hc].
    2:{ destruct c as [[] [] [] [] [] [] [] []]; try discriminate. now contradiction Hc. }
    destruct (digits_prefix_spec r2) as (Heq2 & Hd2 & Hr2).
    destruct (Js.digits_prefix r2) as [d2 r3]; cbn in *.
    destruct (Js.isEmpty r3) eqn:He3; [|discriminate].
    apply isEmpty_true in He3. subst r3. rewrite append_empty_r in Heq2. subst d2.
    intros _. rewrite Heq.
    destruct r2 as [|c2 r2].
    + now apply RangeFrom.
    + apply (RangeFromTo d1 (String c2 r2)); split; auto; discriminate.
Qed.

Lemma matchRange_unparsable range : ~ RangeSyntax range -> matchRange range = None.
Proof.
  intros H. destruct (matchRange range) as [[g1 g2]|] eqn:Hm; [|reflexivity].
  contradiction H. eapply matchRange_syntax, Hm.
Qed.






Lemma firstn_one_skipn {A} (l : list A) : forall (n : nat) (d : A),
  (n < List.length l)%nat -> firstn 1 (skipn n l) = nth n l d :: nil.
Proof.
  induction l as [|x l IH]; intros n d H; cbn in H; [lia|].
  destruct n as [|n]; [reflexivity|]. cbn [skipn nth]. apply IH. lia.
Qed.


(** *** Splitting and joining *)


Lemma join_cons sep x l : l <> nil -> Js.join sep (x :: l) = x ++ sep ++ Js.join sep l.
Proof. destruct l; [congruence | reflexivity]. Qed.





Lemma paragraphsOf_spec text p :
  In p (paragraphsOf text) <-> In p (Js.split NLNL text) /\ Js.trim p <> EmptyString.
Proof.
  unfold paragraphsOf. rewrite filter_In, len_positive, negb_true_iff, isEmpty_false.
  reflexivity.
Qed.

Lemma isNumber_truthy n : isNumber n -> Js.truthyString n = true.
Proof. intros [Hne _]. unfold Js.truthyString. apply negb_true_iff, isEmpty_false, Hne. Qed.

Lemma append_nonempty s t : s <> EmptyString -> s ++ t <> EmptyString.
Proof. destruct s; [congruence | discriminate]. Qed.

Lemma extractParagraphRange_unparsable text range :
  matchRange range = None -> extractParagraphRange text range = EmptyString.
Proof. intros H. unfold extractParagraphRange. now rewrite H. Qed.

Lemma extractParagraphRange_parsed text range g1 g2 :
  matchRange range = Some (g1, g2) ->
  extractParagraphRange text range
  = let paragraphs := paragraphsOf text in
    let start := (Js.parseInt g1 - 1)%Z in
    if (start <? 0)%Z || (start >=? Z.of_nat (List.length paragraphs))%Z
    then EmptyString
    else
      match g2 with
      | None => nth (Z.to_nat start) paragraphs EmptyString
      | Some e =>
          if Js.isEmpty e
          then Js.join NLNL (Js.array_slice paragraphs start None)
          else Js.join NLNL (Js.array_slice paragraphs start (Some (Js.parseInt e)))
      end.
Proof. intros H. unfold extractParagraphRange. now rewrite H. Qed.

Lemma paragraphStep_empty_result options text range :
  paragraphRange options = Some range ->
  range <> EmptyString ->
  extractParagraphRange text range = EmptyString ->
  paragraphStep options text = Returned (rangeInvalid range).
Proof.
  intros Hr Hne He. unfold paragraphStep. rewrite Hr.
  unfold Js.truthyString. apply isEmpty_false in Hne. rewrite Hne. cbn.
  now rewrite He.
Qed.

Lemma paragraphStep_without_range options text :
  paragraphRange options = None \/ paragraphRange options = Some EmptyString ->
  paragraphStep options text = Returned (characterStep options text).
Proof. intros [H|H]; unfold paragraphStep; now rewrite H. Qed.

(** C2, as stated, fails: with the empty range string and a document of
    three non-empty paragraphs the code returns the unmodified text, not
    the placeholder, because [if (options.paragraphRange)] takes the empty
    string for an absent option. *)
Lemma empty_range_returns_text :
  List.length (paragraphsOf threeParagraphs) = 3%nat
  /\ applyPaginationOptions threeParagraphs (rangeOnly EmptyString)
     = Returned threeParagraphs
  /\ applyPaginationOptions threeParagraphs (rangeOnly EmptyString)
     <> Returned (rangeInvalid EmptyString).
Proof. repeat split. vm_compute. discriminate. Qed.

(** C2, amended.  The empty range string counts as no range: extraction
    returns what it returns without a paragraph range.  Every non-empty
    range string that is not of the form N, N- or N-M yields the "invalid
    or out of bounds" placeholder, provided [readHeadings] is not set and
    the section step, when a section is requested, has found a non-empty
    section; no exception is raised. *)
Theorem unparsable_range (text : string) (options : PaginationOptions) (range : string) :
  paragraphRange options = Some range ->
  (range = EmptyString ->
     applyPaginationOptions text options
     = applyPaginationOptions text (withParagraphRange None options))
  /\ (range <> EmptyString -> ~ RangeSyntax range -> readHeadings options <> Some true ->
      (section options = None \/ section options = Some EmptyString ->
         applyPaginationOptions text options = Returned (rangeInvalid range))
      /\ (forall heading body,
            section options = Some heading ->
            extractSection text heading = Returned body ->
            body <> EmptyString ->
            applyPaginationOptions text options = Returned (rangeInvalid range))).
Proof.
  intros Hrange. split.
  - intros ->. unfold applyPaginationOptions, paragraphStep, characterStep.
    cbn [readHeadings section paragraphRange startChar maxLength withParagraphRange].
    rewrite Hrange. reflexivity.
  - intros Hne Hsyn Hread.
    pose proof (matchRange_unparsable _ Hsyn) as Hm.
    assert (Hstep : forall t, paragraphStep options t = Returned (rangeInvalid range)).
    { intros t. apply paragraphStep_empty_result; auto.
      now apply extractParagraphRange_unparsable. }
    unfold applyPaginationOptions.
    destruct (readHeadings options) as [[|]|]; try congruence.
    + split.
      * intros [Hs|Hs]; rewrite Hs; [|cbn]; apply Hstep.
      * intros heading body Hs Hsec Hbody. rewrite Hs.
        destruct (Js.truthyString heading); [|apply Hstep].
        rewrite Hsec. apply isEmpty_false in Hbody. rewrite Hbody. apply Hstep.
    + split.
      * intros [Hs|Hs]; rewrite Hs; [|cbn]; apply Hstep.
      * intros heading body Hs Hsec Hbody. rewrite Hs.
        destruct (Js.truthyString heading); [|apply Hstep].
        rewrite Hsec. apply isEmpty_false in Hbody. rewrite Hbody. apply Hstep.
Qed.

Lemma RangeSyntax_matchRange range : RangeSyntax range -> matchRange range <> None.
Proof.
  intros [n Hn|n Hn|n m Hn [_ Hm]].
  - now rewrite matchRange_single.
  - now rewrite matchRange_from.
  - now rewrite matchRange_from_to.
Qed.

Lemma unparsable_range_witness :
  applyPaginationOptions threeParagraphs (rangeOnly "abc") = Returned (rangeInvalid "abc").
Proof.
  refine (proj1 (proj2 (unparsable_range threeParagraphs (rangeOnly "abc") "abc" eq_refl)
                   _ _ _) _).
  - discriminate.
  - intros H. now apply RangeSyntax_matchRange in H.
  - discriminate.
  - now left.
Defined.



Lemma extractParagraphRange_out_of_bounds text range g1 g2 :
  matchRange range = Some (g1, g2) ->
  (Js.parseInt g1 < 1 \/ Z.of_nat (List.length (paragraphsOf text)) < Js.parseInt g1)%Z ->
  extractParagraphRange text range = EmptyString.
Proof.
  intros Hm Hout. rewrite (extractParagraphRange_parsed _ _ _ _ Hm). cbv zeta.
  destruct (Z.ltb_spec (Js.parseInt g1 - 1) 0); [reflexivity|].
  cbn [orb]. rewrite Z.geb_leb.
  destruct (Z.leb_spec (Z.of_nat (List.length (paragraphsOf text))) (Js.parseInt g1 - 1));
    [reflexivity | lia].
Qed.

Lemma extractParagraphRange_in_bounds text range g1 g2 :
  matchRange range = Some (g1, g2) ->
  (1 <= Js.parseInt g1 <= Z.of_nat (List.length (paragraphsOf text)))%Z ->
  extractParagraphRange text range
  = match g2 with
    | None => nth (Z.to_nat (Js.parseInt g1 - 1)) (paragraphsOf text) EmptyString
    | Some e =>
        if Js.isEmpty e
        then Js.join NLNL (Js.array_slice (paragraphsOf text) (Js.parseInt g1 - 1) None)
        else Js.join NLNL (Js.array_slice (paragraphsOf text) (Js.parseInt g1 - 1)
                             (Some (Js.parseInt e)))
    end.
Proof.
  intros Hm Hin. rewrite (extractParagraphRange_parsed _ _ _ _ Hm). cbv zeta.
  destruct (Z.ltb_spec (Js.parseInt g1 - 1) 0); [lia|].
  cbn [orb]. rewrite Z.geb_leb.
  destruct (Z.leb_spec (Z.of_nat (List.length (paragraphsOf text))) (Js.parseInt g1 - 1));
    [lia | reflexivity].
Qed.


(** ** Decimal numerals *)









(** ** Regular expressions *)

(** Continuations that agree give the same result. *)
Lemma rep_ext (m : nat -> string -> RegExp.cont -> bool) (k1 k2 : RegExp.cont) :
  (forall pos s c1 c2, (forall p t, c1 p t = c2 p t) -> m pos s c1 = m pos s c2) ->
  (forall p t, k1 p t = k2 p t) ->
  forall fuel lo hi pos s,
    RegExp.rep m k1 fuel lo hi pos s = RegExp.rep m k2 fuel lo hi pos s.
Proof.
  intros Hm Hk. induction fuel as [|fuel IH]; intros lo hi pos s; cbn; [reflexivity|].
  destruct lo as [|lo].
  - destruct hi as [[|h]|].
    + apply Hk.
    + rewrite Hk. f_equal. apply Hm. intros p t. now rewrite IH.
    + rewrite Hk. f_equal. apply Hm. intros p t. now rewrite IH.
  - apply Hm. intros p t. apply IH.
Qed.

Lemma run_ext ic r : forall pos s (k1 k2 : RegExp.cont),
  (forall p t, k1 p t = k2 p t) -> RegExp.run ic r pos s k1 = RegExp.run ic r pos s k2.
Proof.
  induction r as [|c| |e| | |r1 IH1 r2 IH2|r1 IH1 r2 IH2|r IH lo hi];
    intros pos s k1 k2 Hk; cbn.
  - apply Hk.
  - destruct s; [reflexivity | now rewrite Hk].
  - destruct s; [reflexivity | now rewrite Hk].
  - destruct s; [reflexivity | now rewrite Hk].
  - now rewrite Hk.
  - now rewrite Hk.
  - apply IH1. intros p t. now apply IH2.
  - now rewrite (IH1 _ _ _ _ Hk), (IH2 _ _ _ _ Hk).
  - apply rep_ext; [|assumption]. intros p t c1 c2 Hc. now apply IH.
Qed.

Lemma bounded_here s (k : RegExp.cont) pos : bounded s k pos s = k pos s.
Proof. unfold bounded. now rewrite Nat.leb_refl. Qed.

Lemma bounded_tail c s (k : RegExp.cont) pos : bounded (String c s) k pos s = k pos s.
Proof.
  unfold bounded. replace (Nat.leb _ _) with true; [reflexivity|].
  symmetry. apply Nat.leb_le. cbn. lia.
Qed.

Lemma bounded_within s (k : RegExp.cont) p t :
  (String.length t <= String.length s)%nat -> bounded s k p t = k p t.
Proof.
  intros H. unfold bounded.
  replace (Nat.leb _ _) with true; [reflexivity | symmetry; now apply Nat.leb_le].
Qed.

Lemma bounded_ext s (k1 k2 : RegExp.cont) :
  (forall p t, (String.length t <= String.length s)%nat -> k1 p t = k2 p t) ->
  forall p t, bounded s k1 p t = bounded s k2 p t.
Proof.
  intros H p t. unfold bounded.
  destruct (Nat.leb_spec (String.length t) (String.length s)); [|reflexivity].
  cbn [andb]. now apply H.
Qed.

Lemma bounded_bounded s t (k : RegExp.cont) :
  (String.length t <= String.length s)%nat ->
  forall p u, bounded t (bounded s k) p u = bounded t k p u.
Proof.
  intros H. apply bounded_ext. intros p u Hu. apply bounded_within. lia.
Qed.

(** A matcher hands its continuation a suffix of its input, so the
    continuation may be restricted to inputs that are not longer. *)
Lemma rep_suffix (m : nat -> string -> RegExp.cont -> bool) (k : RegExp.cont) s0 :
  (forall pos s c1 c2, (forall p t, c1 p t = c2 p t) -> m pos s c1 = m pos s c2) ->
  (forall pos s c, m pos s c = m pos s (bounded s c)) ->
  forall fuel lo hi pos s,
    (String.length s <= String.length s0)%nat ->
    RegExp.rep m k fuel lo hi pos s = RegExp.rep m (bounded s0 k) fuel lo hi pos s.
Proof.
  intros Hext Hm. induction fuel as [|fuel IH]; intros lo hi pos s Hs; [reflexivity|].
  pose proof (bounded_within s0 k pos s Hs) as Hk.
  cbn [RegExp.rep]. destruct lo as [|lo].
  - destruct hi as [[|h]|]; [now rewrite Hk| |]; rewrite Hk; f_equal.
    + rewrite Hm. symmetry. rewrite Hm. symmetry.
      apply Hext, bounded_ext. intros p t Ht. f_equal. apply IH. lia.
    + rewrite Hm. symmetry. rewrite Hm. symmetry.
      apply Hext, bounded_ext. intros p t Ht. f_equal. apply IH. lia.
  - rewrite Hm. symmetry. rewrite Hm. symmetry.
    apply Hext, bounded_ext. intros p t Ht. apply IH. lia.
Qed.

Lemma run_suffix ic r : forall pos s (k : RegExp.cont),
  RegExp.run ic r pos s k = RegExp.run ic r pos s (bounded s k).
Proof.
  induction r as [|c| |e| | |r1 IH1 r2 IH2|r1 IH1 r2 IH2|r IH lo hi];
    intros pos s k; cbn [RegExp.run].
  - now rewrite bounded_here.
  - destruct s; [reflexivity | now rewrite bounded_tail].
  - destruct s; [reflexivity | now rewrite bounded_tail].
  - destruct s; [reflexivity | now rewrite bounded_tail].
  - now rewrite bounded_here.
  - now rewrite bounded_here.
  - rewrite IH1. symmetry. rewrite IH1. symmetry.
    apply run_ext, bounded_ext. intros p t Ht.
    rewrite IH2. symmetry. rewrite IH2. symmetry.
    apply run_ext. intros p' t'. symmetry. now apply bounded_bounded.
  - now rewrite IH1, IH2.
  - apply rep_suffix; [intros; now apply run_ext | apply IH | lia].
Qed.

(** The fuel a repetition starts with is never used up: any amount above
    [lo] plus the length of the input gives the same result. *)
Lemma rep_fuel ic r (k : RegExp.cont) : forall fuel1 fuel2 lo hi pos s,
  (lo + String.length s < fuel1)%nat ->
  (lo + String.length s < fuel2)%nat ->
  RegExp.rep (RegExp.run ic r) k fuel1 lo hi pos s
  = RegExp.rep (RegExp.run ic r) k fuel2 lo hi pos s.
Proof.
  induction fuel1 as [|fuel1 IH]; intros fuel2 lo hi pos s H1 H2; [lia|].
  destruct fuel2 as [|fuel2]; [lia|]. cbn [RegExp.rep].
  destruct lo as [|lo].
  - destruct hi as [[|h]|]; [reflexivity| |]; f_equal;
      apply run_ext; intros p t;
      destruct (Nat.ltb_spec (String.length t) (String.length s)); try reflexivity;
      cbn [andb]; apply IH; lia.
  - rewrite run_suffix. symmetry. rewrite run_suffix. symmetry.
    apply run_ext, bounded_ext. intros p t Ht. apply IH; cbn in *; lia.
Qed.

Lemma allFirst_skip P n : forall s,
  allFirst P n s = true -> String.length s = (n + String.length (skipChars n s))%nat.
Proof.
  induction n as [|n IH]; intros s H; cbn in *; [reflexivity|].
  destruct s as [|c s]; [discriminate|].
  apply andb_true_iff in H as [_ H]. cbn. now rewrite (IH s H) at 1.
Qed.

(** Repetition of a one-character term: the continuation is reached
    after any admissible number of characters satisfying [P]. *)
Lemma rep_single P (k : RegExp.cont) : forall fuel lo hi pos s,
  (lo + String.length s < fuel)%nat ->
  (forall h, hi = Some h -> (lo <= h)%nat) ->
  RegExp.rep (single P) k fuel lo hi pos s = true
  <-> exists n,
        (lo <= n)%nat /\ (forall h, hi = Some h -> (n <= h)%nat)
        /\ allFirst P n s = true /\ k (pos + n)%nat (skipChars n s) = true.
Proof.
  induction fuel as [|fuel IH]; intros lo hi pos s Hfuel Hhi; [lia|].
  cbn [RegExp.rep]. destruct lo as [|lo].
  - assert (Hnone : k pos s = true <->
                    exists n, (0 <= n)%nat /\ (forall h, Some 0%nat = Some h -> (n <= h)%nat)
                              /\ allFirst P n s = true
                              /\ k (pos + n)%nat (skipChars n s) = true).
    { split.
      - intros H. exists 0%nat. rewrite Nat.add_0_r. cbn. repeat split; auto; lia.
      - intros (n & _ & Hn & _ & H). specialize (Hn _ eq_refl).
        assert (n = 0%nat) as -> by lia. now rewrite Nat.add_0_r in H. }
    destruct hi as [[|h]|]; [exact Hnone| |].
    + rewrite orb_true_iff. unfold single at 1.
      destruct s as [|d s].
      * split.
        -- intros [H|H]; [discriminate|]. exists 0%nat. rewrite Nat.add_0_r.
           cbn. repeat split; auto; lia.
        -- intros (n & _ & _ & Ha & H). right. destruct n; [|discriminate].
           now rewrite Nat.add_0_r in H.
      * replace (Nat.ltb (String.length s) (String.length (String d s))) with true
          by (symmetry; apply Nat.ltb_lt; cbn; lia).
        cbn [andb option_map Nat.pred].
        rewrite andb_true_iff, (IH 0%nat (Some h) (S pos) s)
          by (cbn in Hfuel; try lia; intros ? [= <-]; lia).
        split.
        -- intros [[Hd (n & _ & Hn & Ha & H)]|H].
           ++ exists (S n). cbn. rewrite Hd, Ha.
              replace (pos + S n)%nat with (S pos + n)%nat by lia.
              repeat split; auto; try lia. intros ? [= <-]. specialize (Hn _ eq_refl). lia.
           ++ exists 0%nat. rewrite Nat.add_0_r. cbn. repeat split; auto; lia.
        -- intros (n & _ & Hn & Ha & H). destruct n as [|n].
           ++ right. now rewrite Nat.add_0_r in H.
           ++ left. cbn in Ha, H. apply andb_true_iff in Ha as [Hd Ha].
              split; [assumption|]. exists n.
              replace (S pos + n)%nat with (pos + S n)%nat by lia.
              repeat split; auto; try lia. intros ? [= <-]. specialize (Hn _ eq_refl). lia.
    + rewrite orb_true_iff. unfold single at 1.
      destruct s as [|d s].
      * split.
        -- intros [H|H]; [discriminate|]. exists 0%nat. rewrite Nat.add_0_r.
           cbn. repeat split; auto; try lia; try discriminate.
        -- intros (n & _ & _ & Ha & H). right. destruct n; [|discriminate].
           now rewrite Nat.add_0_r in H.
      * replace (Nat.ltb (String.length s) (String.length (String d s))) with true
          by (symmetry; apply Nat.ltb_lt; cbn; lia).
        cbn [andb option_map].
        rewrite andb_true_iff, (IH 0%nat None (S pos) s)
          by (cbn in Hfuel; try lia; discriminate).
        split.
        -- intros [[Hd (n & _ & Hn & Ha & H)]|H].
           ++ exists (S n). cbn. rewrite Hd, Ha.
              replace (pos + S n)%nat with (S pos + n)%nat by lia.
              repeat split; auto; try lia; try discriminate.
           ++ exists 0%nat. rewrite Nat.add_0_r. cbn. repeat split; auto; try lia; try discriminate.
        -- intros (n & _ & Hn & Ha & H). destruct n as [|n].
           ++ right. now rewrite Nat.add_0_r in H.
           ++ left. cbn in Ha, H. apply andb_true_iff in Ha as [Hd Ha].
              split; [assumption|]. exists n.
              replace (S pos + n)%nat with (pos + S n)%nat by lia.
              repeat split; auto; try lia; try discriminate.
  - unfold single at 1. destruct s as [|d s].
    + split; [discriminate|]. intros (n & Hlo & _ & Ha & _).
      destruct n; [lia | discriminate].
    + rewrite andb_true_iff, (IH lo (option_map Nat.pred hi) (S pos) s).
      * split.
        -- intros [Hd (n & Hlo & Hn & Ha & H)].
           exists (S n). cbn. rewrite Hd, Ha.
           replace (pos + S n)%nat with (S pos + n)%nat by lia.
           repeat split; auto; try lia.
           intros h ->. specialize (Hn _ eq_refl). specialize (Hhi _ eq_refl). cbn in Hn. lia.
        -- intros (n & Hlo & Hn & Ha & H). destruct n as [|n]; [lia|].
           cbn in Ha, H. apply andb_true_iff in Ha as [Hd Ha].
           split; [assumption|]. exists n.
           replace (S pos + n)%nat with (pos + S n)%nat by lia.
           repeat split; auto; try lia.
           intros h Hh. destruct hi as [h0|]; [|discriminate].
           injection Hh as <-. specialize (Hn _ eq_refl). lia.
      * cbn in Hfuel. lia.
      * intros h Hh. destruct hi as [h0|]; [|discriminate].
        injection Hh as <-. specialize (Hhi _ eq_refl). lia.
Qed.

Lemma run_Chr ic c : RegExp.run ic (RegExp.Chr c) = single (RegExp.charMatches ic c).
Proof. reflexivity. Qed.

Lemma run_Dot ic :
  RegExp.run ic RegExp.Dot = single (fun d => negb (Js.isLineTerminator d)).
Proof. reflexivity. Qed.

Lemma run_Esc ic e : RegExp.run ic (RegExp.Esc e) = single (RegExp.in_escape e).
Proof. reflexivity. Qed.

(** A regular expression that only matches at position 0 is tried in
    vain at the other start positions. *)
Lemma search_anchored ic r :
  (forall pos s, pos <> 0%nat -> RegExp.run ic r pos s (fun _ _ => true) = false) ->
  forall s pos, pos <> 0%nat -> RegExp.search ic r pos s = false.
Proof.
  intros Hr. induction s as [|c s IH]; intros pos Hpos; cbn.
  - rewrite Hr by assumption. reflexivity.
  - rewrite Hr by assumption. apply IH. lia.
Qed.

Lemma test_anchored ic r s :
  (forall pos s, pos <> 0%nat -> RegExp.run ic r pos s (fun _ _ => true) = false) ->
  RegExp.test ic r s = RegExp.run ic r 0 s (fun _ _ => true).
Proof.
  intros Hr. unfold RegExp.test. destruct s as [|c s]; cbn.
  - apply orb_false_r.
  - rewrite (search_anchored ic r Hr) by lia. apply orb_false_r.
Qed.

Lemma allFirst_hashes n : forall s,
  allFirst (Ascii.eqb "#") n s = true -> s = hashes n ++ skipChars n s.
Proof.
  induction n as [|n IH]; intros s H; cbn [allFirst hashes skipChars] in *; [reflexivity|].
  destruct s as [|c s]; [discriminate|].
  apply andb_true_iff in H as [Hc H]. apply Ascii.eqb_eq in Hc. subst c.
  cbn [String.append]. f_equal. now apply IH.
Qed.

Lemma hashes_allFirst n r : allFirst (Ascii.eqb "#") n (hashes n ++ r) = true.
Proof. induction n as [|n IH]; cbn; [reflexivity | exact IH]. Qed.

Lemma hashes_skip n r : skipChars n (hashes n ++ r) = r.
Proof. induction n as [|n IH]; cbn; [reflexivity | exact IH]. Qed.

(** *** The heading test of [extractHeadings] *)

Lemma run_headingRegex pos s (k : RegExp.cont) :
  RegExp.run false headingRegex pos s k
  = Nat.eqb pos 0
    && RegExp.rep (single (Ascii.eqb "#")) (fun p t => single Js.isWhiteSpace p t k)
         (1 + String.length s + 1) 1 (Some 6%nat) pos s.
Proof. reflexivity. Qed.

Lemma headingRegex_anchored pos s :
  pos <> 0%nat -> RegExp.run false headingRegex pos s (fun _ _ => true) = false.
Proof.
  intros H. rewrite run_headingRegex.
  replace (Nat.eqb pos 0) with false; [reflexivity|].
  symmetry. now apply Nat.eqb_neq.
Qed.

Lemma headingRegex_test line :
  RegExp.test false headingRegex line = true <-> HeadingLine line.
Proof.
  rewrite test_anchored by apply headingRegex_anchored.
  rewrite run_headingRegex. cbn [Nat.eqb andb].
  rewrite rep_single by (try lia; intros ? [= <-]; lia).
  split.
  - intros (n & Hlo & Hhi & Ha & Hk). specialize (Hhi _ eq_refl).
    unfold single in Hk. destruct (skipChars n line) as [|w rest] eqn:Hrest; [discriminate|].
    rewrite andb_true_r in Hk.
    exists n, w, rest. repeat split; try assumption.
    rewrite <- Hrest. now apply allFirst_hashes.
  - intros (n & w & rest & [Hlo Hhi] & Hw & ->).
    exists n. repeat split; try assumption.
    + now intros ? [= <-].
    + apply hashes_allFirst.
    + rewrite hashes_skip. cbn. now rewrite Hw.
Qed.

Lemma leading_hashes k : forall w rest,
  w <> Js.HASH -> Js.leading Js.HASH (hashes k ++ String w rest) = k.
Proof.
  induction k as [|k IH]; intros w rest Hw; cbn.
  - destruct (Ascii.eqb_spec w Js.HASH); [contradiction | reflexivity].
  - f_equal. now apply IH.
Qed.

Lemma get_hashes k : forall w rest, String.get k (hashes k ++ String w rest) = Some w.
Proof. induction k as [|k IH]; intros w rest; cbn; [reflexivity | apply IH]. Qed.

Lemma leading_decompose line :
  exists rest,
    line = hashes (Js.leading Js.HASH line) ++ rest
    /\ String.get (Js.leading Js.HASH line) line = String.get 0 rest.
Proof.
  induction line as [|c line (rest & Heq & Hget)]; cbn.
  - now exists EmptyString.
  - destruct (Ascii.eqb_spec c Js.HASH) as [->|Hc].
    + exists rest. cbn. split; [now f_equal | assumption].
    + now exists (String c line).
Qed.

Lemma isHeadingLine_spec line : isHeadingLine line = true <-> HeadingLine line.
Proof.
  unfold isHeadingLine, headingLevel. split.
  - intros H. apply andb_true_iff in H as [H Hw]. apply andb_true_iff in H as [Hlo Hhi].
    apply Nat.leb_le in Hlo, Hhi.
    destruct (leading_decompose line) as (rest & Heq & Hget).
    rewrite Hget in Hw. destruct rest as [|w rest]; [discriminate|]. cbn in Hw.
    exists (Js.leading Js.HASH line), w, rest. repeat split; assumption.
  - intros (k & w & rest & [Hlo Hhi] & Hw & ->).
    assert (Hne : w <> Js.HASH) by (intros ->; discriminate).
    rewrite leading_hashes, get_hashes by assumption.
    rewrite Hw, andb_true_r. apply andb_true_iff.
    split; apply Nat.leb_le; assumption.
Qed.

Lemma headingRegex_isHeadingLine line :
  RegExp.test false headingRegex line = isHeadingLine line.
Proof.
  apply eq_true_iff_eq. now rewrite headingRegex_test, isHeadingLine_spec.
Qed.

Lemma extractHeadings_spec text :
  extractHeadings text
  = match List.filter isHeadingLine (Js.split NL text) with
    | nil => noHeadings
    | headings => Js.join NL headings
    end.
Proof.
  unfold extractHeadings.
  rewrite (filter_ext _ isHeadingLine headingRegex_isHeadingLine).
  destruct (List.filter isHeadingLine (Js.split NL text)); reflexivity.
Qed.

(** C9.  When [readHeadings] is set, whatever the other options are, the
    result is made of the lines that begin with 1 to 6 number signs
    followed by a white-space character, in the order of the document and
    joined by line feeds, or is the fixed "No headings found" message when
    there is no such line. *)
Theorem read_headings (text : string) (options : PaginationOptions) :
  readHeadings options = Some true ->
  applyPaginationOptions text options
  = Returned match List.filter isHeadingLine (Js.split NL text) with
             | nil => "No headings found in the content."
             | headings => Js.join NL headings
             end
  /\ (forall line, isHeadingLine line = true <-> HeadingLine line).
Proof.
  intros H. split; [|apply isHeadingLine_spec].
  unfold applyPaginationOptions. rewrite H. f_equal. apply extractHeadings_spec.
Qed.

(** *** The section pattern of a plain heading text *)

Lemma classify_plain c : isPatternSyntax c = false -> RegExp.classify c = RegExp.TChar.
Proof.
  destruct c as [[] [] [] [] [] [] [] []]; intros H; try discriminate H; reflexivity.
Qed.

Lemma parse_literal h : forall rest f stack,
  plainText h = true ->
  RegExp.parse (h ++ String "." rest) 0 f stack
  = RegExp.parse rest 0
      (RegExp.Frame (RegExp.alts f) (literal (RegExp.seq_of f) h) (RegExp.Atom RegExp.Dot))
      stack.
Proof.
  induction h as [|c h IH]; intros rest f stack Hp.
  - reflexivity.
  - cbn [plainText] in Hp. apply andb_true_iff in Hp as [Hc Hp].
    apply negb_true_iff in Hc.
    cbn [String.append RegExp.parse]. rewrite (classify_plain c Hc).
    rewrite IH by assumption. reflexivity.
Qed.

Lemma parse_sectionPrefix rest :
  RegExp.parse ("^#{1,6}s*.*" ++ rest) 0 RegExp.fresh nil
  = RegExp.parse rest 0 (RegExp.Frame None sectionPrefix RegExp.Quantified) nil.
Proof. reflexivity. Qed.

(** The constructor accepts the pattern of every plain heading text. *)
Lemma create_sectionPattern h :
  plainText h = true ->
  RegExp.create (sectionPattern h) = RegExp.Compiled (sectionRegexOf h).
Proof.
  intros Hp. unfold RegExp.create, sectionPattern.
  rewrite parse_sectionPrefix.
  change (h ++ ".*$") with (h ++ String "." "*$").
  rewrite parse_literal by assumption. reflexivity.
Qed.

Lemma allChars_app P a : forall b, allChars P (a ++ b) = allChars P a && allChars P b.
Proof.
  induction a as [|c a IH]; intros b; cbn [String.append allChars]; [reflexivity|].
  now rewrite IH, andb_assoc.
Qed.

Lemma allChars_impl (P Q : ascii -> bool) a :
  (forall c, P c = true -> Q c = true) -> allChars P a = true -> allChars Q a = true.
Proof.
  intros HPQ. induction a as [|c a IH]; cbn [allChars]; [trivial|].
  rewrite !andb_true_iff. intros [Hc Ha]. auto.
Qed.

Lemma allFirst_split P n : forall s,
  allFirst P n s = true ->
  exists a, s = a ++ skipChars n s /\ String.length a = n /\ allChars P a = true.
Proof.
  induction n as [|n IH]; intros s H; cbn [allFirst skipChars] in *.
  - now exists EmptyString.
  - destruct s as [|c s]; [discriminate|].
    apply andb_true_iff in H as [Hc H].
    destruct (IH s H) as (a & Heq & Hlen & Ha).
    exists (String c a). cbn [String.append String.length allChars].
    rewrite Hc, Ha, Hlen, <- Heq. auto.
Qed.

Lemma allFirst_app P a : forall r,
  allChars P a = true -> allFirst P (String.length a) (a ++ r) = true.
Proof.
  induction a as [|c a IH]; intros r H; cbn [allChars String.length String.append allFirst] in *;
    [reflexivity|].
  apply andb_true_iff in H as [Hc H]. rewrite Hc. now apply IH.
Qed.

Lemma skipChars_app a : forall r, skipChars (String.length a) (a ++ r) = r.
Proof. induction a as [|c a IH]; intros r; cbn; [reflexivity | apply IH]. Qed.

Lemma afterIgnoreCase_spec h : forall t r,
  afterIgnoreCase h t = Some r <-> exists h', t = h' ++ r /\ eqIgnoreCase h h' = true.
Proof.
  induction h as [|c h IH]; intros t r; cbn [afterIgnoreCase].
  - split.
    + intros [= ->]. now exists EmptyString.
    + intros (h' & -> & He). destruct h'; [reflexivity | discriminate].
  - destruct t as [|d t].
    + split; [discriminate|]. intros (h' & Ht & He).
      destruct h'; [discriminate He | discriminate Ht].
    + destruct (RegExp.canonicalize c =? RegExp.canonicalize d)%N eqn:Hcd.
      * rewrite IH. split.
        -- intros (h' & -> & He). exists (String d h'). cbn [String.append eqIgnoreCase].
           now rewrite Hcd, He.
        -- intros (h' & Ht & He). destruct h' as [|d' h']; [discriminate He|].
           cbn [String.append eqIgnoreCase] in *. injection Ht as <- ->.
           apply andb_true_iff in He as [_ He]. now exists h'.
      * split; [discriminate|]. intros (h' & Ht & He).
        destruct h' as [|d' h']; [discriminate He|].
        cbn [String.append eqIgnoreCase] in *. injection Ht as <- ->.
        rewrite Hcd in He. discriminate.
Qed.

Lemma eqIgnoreCase_length a : forall b,
  eqIgnoreCase a b = true -> String.length a = String.length b.
Proof.
  induction a as [|c a IH]; intros [|d b] H; cbn [eqIgnoreCase String.length] in *;
    try discriminate; [reflexivity|].
  apply andb_true_iff in H as [_ H]. f_equal. now apply IH.
Qed.


Lemma hash_ignoring_case d : RegExp.charMatches true "#" d = true -> d = "#"%char.
Proof.
  destruct d as [[] [] [] [] [] [] [] []]; intros H; try discriminate H; reflexivity.
Qed.

Lemma s_ignoring_case d :
  RegExp.charMatches true "s" d = true -> notLineTerminator d = true.
Proof.
  destruct d as [[] [] [] [] [] [] [] []]; intros H; try discriminate H; reflexivity.
Qed.


Lemma run_literal h : forall base pos s (k : RegExp.cont),
  RegExp.run true (literal base h) pos s k
  = RegExp.run true base pos s
      (fun p t => match afterIgnoreCase h t with
                  | Some r => k (p + String.length h)%nat r
                  | None => false
                  end).
Proof.
  induction h as [|c h IH]; intros base pos s k; cbn [literal].
  - apply run_ext. intros p t. cbn. now rewrite Nat.add_0_r.
  - rewrite IH. cbn [RegExp.run]. apply run_ext. intros p t.
    destruct t as [|d t]; [reflexivity|].
    cbn [afterIgnoreCase String.length]. unfold RegExp.charMatches.
    destruct (RegExp.canonicalize c =? RegExp.canonicalize d)%N; [|reflexivity].
    cbn [andb]. destruct (afterIgnoreCase h t); [|reflexivity].
    f_equal. lia.
Qed.

Lemma run_sectionPrefix pos s (k : RegExp.cont) :
  RegExp.run true sectionPrefix pos s k
  = Nat.eqb pos 0
    && RegExp.rep (single (RegExp.charMatches true "#"))
         (fun p1 t1 =>
            RegExp.rep (single (RegExp.charMatches true "s"))
              (fun p2 t2 =>
                 RegExp.rep (single notLineTerminator) k
                   (0 + String.length t2 + 1) 0 None p2 t2)
              (0 + String.length t1 + 1) 0 None p1 t1)
         (1 + String.length s + 1) 1 (Some 6%nat) pos s.
Proof. reflexivity. Qed.

Lemma run_sectionRegexOf h pos s (k : RegExp.cont) :
  RegExp.run true (sectionRegexOf h) pos s k
  = RegExp.run true sectionPrefix pos s
      (fun p t =>
         match afterIgnoreCase h t with
         | Some r =>
             RegExp.rep (single notLineTerminator)
               (fun p' t' => Js.isEmpty t' && k p' t')
               (0 + String.length r + 1) 0 None (p + String.length h)%nat r
         | None => false
         end).
Proof.
  unfold sectionRegexOf. cbn [RegExp.run]. rewrite run_literal. reflexivity.
Qed.

Lemma sectionRegexOf_anchored h pos s :
  pos <> 0%nat -> RegExp.run true (sectionRegexOf h) pos s (fun _ _ => true) = false.
Proof.
  intros H. rewrite run_sectionRegexOf, run_sectionPrefix.
  replace (Nat.eqb pos 0) with false; [reflexivity|].
  symmetry. now apply Nat.eqb_neq.
Qed.

Lemma append_assoc a : forall b c, (a ++ b) ++ c = a ++ b ++ c.
Proof.
  induction a as [|x a IH]; intros b c; cbn [String.append]; [reflexivity|].
  now rewrite IH.
Qed.

Lemma allFirst_whole P v : allChars P v = true -> allFirst P (String.length v) v = true.
Proof. intros H. rewrite <- (append_empty_r v) at 2. now apply allFirst_app. Qed.

Lemma skipChars_whole v : skipChars (String.length v) v = EmptyString.
Proof. rewrite <- (append_empty_r v) at 2. apply skipChars_app. Qed.

(** What the regular expression of a plain heading text accepts. *)
Lemma sectionRegexOf_test h line :
  RegExp.test true (sectionRegexOf h) line = true <-> SectionStart h line.
Proof.
  rewrite test_anchored by apply sectionRegexOf_anchored.
  rewrite run_sectionRegexOf, run_sectionPrefix. cbn [Nat.eqb andb].
  rewrite rep_single by (try lia; intros ? [= <-]; lia).
  split.
  - intros (n1 & Hlo & _ & Ha1 & Hk).
    apply rep_single in Hk as (n2 & _ & _ & Ha2 & Hk); [|lia|discriminate].
    apply rep_single in Hk as (n3 & _ & _ & Ha3 & Hk); [|lia|discriminate].
    destruct (afterIgnoreCase h (skipChars n3 (skipChars n2 (skipChars n1 line))))
      as [r|] eqn:Hafter; [|discriminate].
    apply rep_single in Hk as (n4 & _ & _ & Ha4 & Hk); [|lia|discriminate].
    rewrite andb_true_r in Hk. apply isEmpty_true in Hk.
    apply allFirst_split in Ha1 as (a1 & E1 & L1 & A1).
    apply allFirst_split in Ha2 as (a2 & E2 & L2 & A2).
    apply allFirst_split in Ha3 as (a3 & E3 & L3 & A3).
    apply allFirst_split in Ha4 as (a4 & E4 & L4 & A4).
    apply afterIgnoreCase_spec in Hafter as (h' & E5 & Hh).
    rewrite Hk, append_empty_r in E4. subst a4.
    destruct a1 as [|d a1]; [cbn in L1; lia|].
    cbn [allChars] in A1. apply andb_true_iff in A1 as [Hd A1].
    apply hash_ignoring_case in Hd. subst d.
    exists (a1 ++ a2 ++ a3), h', r. repeat split; try assumption.
    + rewrite E1, E2, E3, E5. cbn [String.append]. unfold Js.HASH. f_equal.
      now rewrite !append_assoc.
    + unfold noLineTerminator. rewrite !allChars_app, A3, !andb_true_r.
      apply andb_true_iff. split.
      * eapply allChars_impl, A1. intros c Hc.
        apply hash_ignoring_case in Hc. now subst c.
      * eapply allChars_impl, A2. apply s_ignoring_case.
  - intros (u & h' & v & -> & Hu & Hv & Hh).
    exists 1%nat. split; [lia|]. split; [intros ? [= <-]; lia|]. split; [reflexivity|].
    cbn [skipChars].
    apply rep_single; [lia|discriminate|].
    exists 0%nat. split; [lia|]. split; [discriminate|]. split; [reflexivity|].
    cbn [skipChars].
    apply rep_single; [lia|discriminate|].
    exists (String.length u). split; [lia|]. split; [discriminate|].
    split; [now apply allFirst_app|].
    rewrite skipChars_app.
    assert (Hafter : afterIgnoreCase h (h' ++ v) = Some v)
      by (apply afterIgnoreCase_spec; now exists h').
    rewrite Hafter.
    apply rep_single; [lia|discriminate|].
    exists (String.length v). split; [lia|]. split; [discriminate|].
    split; [now apply allFirst_whole|].
    now rewrite skipChars_whole.
Qed.

(** ** Section extraction *)

Lemma findSectionStart_first re : forall (lines : list string) i0 i line,
  lines !! i = Some line ->
  RegExp.test true re line = true ->
  (forall j l, (j < i)%nat -> lines !! j = Some l -> RegExp.test true re l = false) ->
  findSectionStart re lines i0 = Some ((i0 + i)%nat, headingLevel line).
Proof.
  induction lines as [|x lines IH]; intros i0 i line Hi Ht Hbefore; [discriminate|].
  cbn [findSectionStart]. destruct i as [|i].
  - injection Hi as ->. rewrite Ht, Nat.add_0_r. reflexivity.
  - rewrite (Hbefore 0%nat x) by (try lia; reflexivity).
    rewrite (IH (S i0) i line); [f_equal; f_equal; lia|exact Hi|exact Ht|].
    intros j l Hj Hl. apply (Hbefore (S j) l); [lia | exact Hl].
Qed.

Lemma findSectionStart_none re : forall (lines : list string) i0,
  (forall l, In l lines -> RegExp.test true re l = false) ->
  findSectionStart re lines i0 = None.
Proof.
  induction lines as [|x lines IH]; intros i0 H; [reflexivity|].
  cbn [findSectionStart]. rewrite (H x) by now left.
  apply IH. intros l Hl. apply H. now right.
Qed.

Lemma endsSection_test level line :
  Nat.ltb 0 (Js.leading Js.HASH line) && Nat.leb (Js.leading Js.HASH line) level = true
  <-> endsSection level line.
Proof.
  unfold endsSection, headingLevel.
  rewrite andb_true_iff, Nat.ltb_lt, Nat.leb_le. lia.
Qed.

Lemma findSectionEnd_spec level : forall (lines : list string) i0,
  (exists k l,
      findSectionEnd level lines i0 = Some (i0 + k)%nat
      /\ lines !! k = Some l /\ endsSection level l
      /\ forall j l', (j < k)%nat -> lines !! j = Some l' -> ~ endsSection level l')
  \/ (findSectionEnd level lines i0 = None
      /\ forall j l', lines !! j = Some l' -> ~ endsSection level l').
Proof.
  induction lines as [|x lines IH]; intros i0.
  - right. split; [reflexivity|]. intros j l' H. discriminate.
  - cbn [findSectionEnd]. cbv zeta.
    destruct (Nat.ltb 0 (Js.leading Js.HASH x) && Nat.leb (Js.leading Js.HASH x) level)
      eqn:Hx.
    + left. exists 0%nat, x. rewrite Nat.add_0_r.
      split; [reflexivity|]. split; [reflexivity|].
      split; [now apply endsSection_test|]. intros j l' Hj. lia.
    + assert (Hnot : ~ endsSection level x).
      { intros H. apply endsSection_test in H. congruence. }
      destruct (IH (S i0)) as [(k & l & He & Hl & Hend & Hbefore)|[He Hall]].
      * left. exists (S k), l. split; [rewrite He; f_equal; lia|].
        split; [exact Hl|]. split; [exact Hend|].
        intros [|j] l' Hj Hl'; [injection Hl' as <-; exact Hnot|].
        apply (Hbefore j l'); [lia | exact Hl'].
      * right. split; [exact He|].
        intros [|j] l' Hl'; [injection Hl' as <-; exact Hnot|].
        apply (Hall j l' Hl').
Qed.

Lemma array_slice_take_drop {A} (l : list A) (i e : nat) :
  (i <= List.length l)%nat -> (e <= List.length l)%nat ->
  Js.array_slice l (Z.of_nat i) (Some (Z.of_nat e)) = take (e - i) (drop i l).
Proof.
  intros Hi He. unfold Js.array_slice.
  replace (Z.of_nat i <? 0)%Z with false by (symmetry; apply Z.ltb_ge; lia).
  replace (Z.of_nat e <? 0)%Z with false by (symmetry; apply Z.ltb_ge; lia).
  rewrite !Z.min_l by lia. f_equal; [lia|]. f_equal. lia.
Qed.

(** The extent of the section that starts at line [i]. *)
Lemma extractSection_extent text h re i line :
  RegExp.create (sectionPattern h) = RegExp.Compiled re ->
  Js.split NL text !! i = Some line ->
  RegExp.test true re line = true ->
  (forall j l, (j < i)%nat -> Js.split NL text !! j = Some l ->
               RegExp.test true re l = false) ->
  exists e,
    (i < e <= List.length (Js.split NL text))%nat
    /\ extractSection text h
       = Returned (Js.join NL (take (e - i) (drop i (Js.split NL text))))
    /\ (forall j l, (i < j < e)%nat -> Js.split NL text !! j = Some l ->
                    ~ endsSection (headingLevel line) l)
    /\ ((e < List.length (Js.split NL text))%nat ->
        exists l, Js.split NL text !! e = Some l /\ endsSection (headingLevel line) l).
Proof.
  intros Hre Hi Ht Hbefore. unfold extractSection. rewrite Hre.
  set (lines := Js.split NL text) in *.
  rewrite (findSectionStart_first re lines 0 i line Hi Ht Hbefore). cbn [Nat.add].
  pose proof (lookup_lt_Some _ _ _ Hi) as Hlt.
  destruct (findSectionEnd_spec (headingLevel line) (drop (S i) lines) (S i))
    as [(k & l & He & Hl & Hend & Hmid)|[He Hall]]; rewrite He.
  - rewrite lookup_drop in Hl. pose proof (lookup_lt_Some _ _ _ Hl) as Hlt'.
    exists (S i + k)%nat. split; [lia|]. split; [|split].
    + rewrite array_slice_take_drop by lia. reflexivity.
    + intros j l' Hj Hl'. apply (Hmid (j - S i)%nat l'); [lia|].
      rewrite lookup_drop. now replace (S i + (j - S i))%nat with j by lia.
    + intros _. now exists l.
  - exists (List.length lines). split; [lia|]. split; [|split].
    + rewrite array_slice_take_drop by lia. reflexivity.
    + intros j l' Hj Hl'. apply (Hall (j - S i)%nat l').
      rewrite lookup_drop. now replace (S i + (j - S i))%nat with j by lia.
    + lia.
Qed.

(** Every character is one of the 256 code units. *)
Lemma in_allAscii c : In c allAscii.
Proof.
  unfold allAscii. rewrite <- (ascii_nat_embedding c).
  apply in_map, in_seq. pose proof (nat_ascii_bounded c). lia.
Qed.

(** The case folding of the [i] flag identifies exactly the characters
    that are the same letter up to case. *)
Lemma canonicalize_sameLetter c d :
  (RegExp.canonicalize c =? RegExp.canonicalize d)%N = sameLetter c d.
Proof.
  assert (H : forallb (fun c => forallb (fun d =>
                Bool.eqb (RegExp.canonicalize c =? RegExp.canonicalize d)%N (sameLetter c d))
                allAscii) allAscii = true) by (vm_compute; reflexivity).
  rewrite forallb_forall in H. specialize (H c (in_allAscii c)).
  rewrite forallb_forall in H. specialize (H d (in_allAscii d)).
  now apply Bool.eqb_prop in H.
Qed.

Lemma eqIgnoreCase_sameUpToCase a : forall b, eqIgnoreCase a b = sameUpToCase a b.
Proof.
  induction a as [|c a IH]; intros [|d b]; cbn [eqIgnoreCase sameUpToCase]; try reflexivity.
  now rewrite canonicalize_sameLetter, IH.
Qed.

(** ** Heading lines for a requested text *)

Lemma HeadingWith_SectionStart h line : HeadingWith h line <-> SectionStart h line.
Proof.
  unfold HeadingWith, SectionStart.
  split; intros (u & h' & v & Hl & Hu & Hv & Hh); exists u, h', v;
    rewrite eqIgnoreCase_sameUpToCase in *; auto.
Qed.

(** The section pattern of a plain heading text accepts the heading lines
    for that text, and no other line. *)
Lemma HeadingWith_test h line :
  HeadingWith h line <-> RegExp.test true (sectionRegexOf h) line = true.
Proof.
  rewrite HeadingWith_SectionStart. symmetry. apply sectionRegexOf_test.
Qed.

(** C5, as stated, fails: the requested text is read as a pattern, so a
    question mark in it makes the letter before it optional, and the
    section of "Why?" starts at the heading "What is new", which does not
    hold that text, instead of the heading "Why?"; and a heading line
    that ends in a carriage return is not found at all. *)
Lemma section_start_without_the_text :
  extractSection whyDocument "Why?" = Returned ("# What is new" ++ NL ++ "a")
  /\ extractSection whyDocument "Why?" <> Returned ("# Why?" ++ NL ++ "b")
  /\ holdsUpToCase "Why?" "# What is new" = false
  /\ holdsUpToCase "Why?" "# Why?" = true
  /\ extractSection crlfDocument "A" = Returned EmptyString
  /\ Js.split NL crlfDocument = ("# A" ++ String Js.CR EmptyString) :: "body" :: nil.
Proof. repeat split; vm_compute; first [reflexivity | discriminate]. Qed.

(** C5.  For a requested text without pattern syntax, the section starts
    at the first line [i] that begins with a number sign and, after it,
    holds the text up to case (no carriage return around it), and is made
    of the lines [i] to [e - 1], where [e] is the first line after [i]
    that starts with number signs, at most as many as line [i], or the
    end of the text when there is no such line; lines with a deeper level
    in between do not end it.  In the scenario of the specification the
    section "A" is "# A", "## B", "text1"; the section "install" of a
    document whose heading reads "INSTALL Guide" starts at that heading
    and holds its subsection. *)
Theorem section_level_aware :
  (forall text h i line,
      plainText h = true ->
      Js.split NL text !! i = Some line ->
      HeadingWith h line ->
      (forall j l, (j < i)%nat -> Js.split NL text !! j = Some l -> ~ HeadingWith h l) ->
      exists e,
        (i < e <= List.length (Js.split NL text))%nat
        /\ extractSection text h
           = Returned (Js.join NL (take (e - i) (drop i (Js.split NL text))))
        /\ (forall j l, (i < j < e)%nat -> Js.split NL text !! j = Some l ->
                        ~ endsSection (headingLevel line) l)
        /\ ((e < List.length (Js.split NL text))%nat ->
            exists l, Js.split NL text !! e = Some l
                      /\ endsSection (headingLevel line) l))
  /\ extractSection levelsDocument "A"
     = Returned ("# A" ++ NL ++ "## B" ++ NL ++ "text1")
  /\ extractSection installDocument "install"
     = Returned ("## INSTALL Guide" ++ NL ++ "run" ++ NL ++ "### Details" ++ NL ++ "more").
Proof.
  split; [|split; reflexivity].
  intros text h i line Hp Hi Hline Hfirst.
  apply (extractSection_extent text h (sectionRegexOf h) i line).
  - now apply create_sectionPattern.
  - exact Hi.
  - now apply HeadingWith_test.
  - intros j l Hj Hl.
    destruct (RegExp.test true (sectionRegexOf h) l) eqn:Ht; [|reflexivity].
    apply HeadingWith_test in Ht. now destruct (Hfirst j l Hj Hl).
Qed.

Lemma section_level_aware_witness :
  exists e,
    (2 < e <= List.length (Js.split NL installDocument))%nat
    /\ extractSection installDocument "install"
       = Returned (Js.join NL (take (e - 2) (drop 2 (Js.split NL installDocument)))).
Proof.
  destruct (proj1 section_level_aware installDocument "install" 2%nat "## INSTALL Guide")
    as (e & He & Hsection & _).
  - reflexivity.
  - reflexivity.
  - exists "# ", "INSTALL", " Guide". repeat split; reflexivity.
  - intros j l Hj Hl Hstart. apply HeadingWith_test in Hstart.
    destruct j as [|[|j]]; [| |lia]; vm_compute in Hl; injection Hl as <-;
      vm_compute in Hstart; discriminate Hstart.
  - exists e. split; assumption.
Defined.

Lemma read_headings_witness :
  readHeadings headingsOnly = Some true
  /\ applyPaginationOptions levelsDocument headingsOnly
     = Returned ("# A" ++ NL ++ "## B" ++ NL ++ "# C").
Proof.
  split; [reflexivity|].
  exact (proj1 (read_headings levelsDocument headingsOnly eq_refl)).
Defined.

(** ** The two notions of heading *)






(** ** Where the extraction engine returns *)

Lemma paragraphStep_returns options text :
  exists s, paragraphStep options text = Returned s.
Proof.
  unfold paragraphStep. destruct (paragraphRange options) as [range|]; [|eauto].
  destruct (Js.truthyString range); [|eauto].
  destruct (Js.isEmpty (extractParagraphRange text range)); eauto.
Qed.

Lemma extractSection_returns text h :
  plainText h = true -> exists s, extractSection text h = Returned s.
Proof.
  intros Hp. unfold extractSection. rewrite (create_sectionPattern h Hp).
  destruct (findSectionStart _ _ _) as [[i level]|]; eauto.
Qed.

(** Apart from a requested heading that holds pattern syntax, nothing in
    the extraction engine throws: with a plain heading text, or none, a
    string is returned for every text and all other options. *)
Lemma applyPaginationOptions_returns text options :
  (forall h, section options = Some h -> plainText h = true) ->
  exists s, applyPaginationOptions text options = Returned s.
Proof.
  intros Hplain. unfold applyPaginationOptions.
  destruct (readHeadings options) as [[|]|]; [eauto| |];
    (destruct (section options) as [h|]; [|apply paragraphStep_returns];
     destruct (Js.truthyString h); [|apply paragraphStep_returns];
     destruct (extractSection_returns text h (Hplain h eq_refl)) as [s ->];
     destruct (Js.isEmpty s); [eauto | apply paragraphStep_returns]).
Qed.

(** ** The range literal read by the constructor *)

Lemma allDigits_allChars s : allDigits s = allChars Js.isDigit s.
Proof. induction s as [|c s IH]; cbn [allDigits allChars]; [reflexivity | now rewrite IH]. Qed.

(** An optional term: taken once, consuming input, or not at all. *)
Lemma rep_optional ic r (k : RegExp.cont) pos s :
  RegExp.rep (RegExp.run ic r) k (0 + String.length s + 1) 0 (Some 1%nat) pos s
  = RegExp.run ic r pos s
      (fun p t => Nat.ltb (String.length t) (String.length s) && k p t)
    || k pos s.
Proof.
  rewrite Nat.add_0_l, Nat.add_1_r. cbn [RegExp.rep option_map Nat.pred].
  f_equal. apply run_ext. intros p t.
  destruct (Nat.ltb_spec (String.length t) (String.length s)) as [Hlt|Hge];
    [|reflexivity].
  cbn [andb]. destruct (String.length s); [lia | reflexivity].
Qed.

Lemma run_rangeRegex pos s (k : RegExp.cont) :
  RegExp.run false rangeRegex pos s k
  = Nat.eqb pos 0
    && RegExp.rep (single Js.isDigit)
         (fun p t =>
            RegExp.rep (RegExp.run false rangeEnd)
              (fun p' t' => Js.isEmpty t' && k p' t')
              (0 + String.length t + 1) 0 (Some 1%nat) p t)
         (1 + String.length s + 1) 1 None pos s.
Proof. reflexivity. Qed.

Lemma run_rangeEnd p t (k : RegExp.cont) :
  RegExp.run false rangeEnd p t k
  = match t with
    | String d t' =>
        Ascii.eqb "-" d
        && RegExp.rep (single Js.isDigit) k (0 + String.length t' + 1) 0 None (S p) t'
    | EmptyString => false
    end.
Proof. destruct t; reflexivity. Qed.

Lemma rangeRegex_anchored pos s :
  pos <> 0%nat -> RegExp.run false rangeRegex pos s (fun _ _ => true) = false.
Proof.
  intros H. rewrite run_rangeRegex.
  replace (Nat.eqb pos 0) with false; [reflexivity|].
  symmetry. now apply Nat.eqb_neq.
Qed.

Lemma skipChars_length n : forall s,
  (String.length (skipChars n s) <= String.length s)%nat.
Proof.
  induction n as [|n IH]; intros s; cbn [skipChars]; [lia|].
  destruct s as [|c s]; [lia|]. cbn [String.length]. specialize (IH s). lia.
Qed.

(** The regular expression the constructor builds from the range literal
    accepts exactly the range syntax, which is what [matchRange] accepts. *)
Lemma rangeRegex_test range :
  RegExp.test false rangeRegex range = true <-> RangeSyntax range.
Proof.
  rewrite test_anchored by apply rangeRegex_anchored.
  rewrite run_rangeRegex. cbn [Nat.eqb andb].
  rewrite rep_single by (try lia; discriminate).
  split.
  - intros (n1 & Hlo & _ & Ha1 & Hk).
    apply allFirst_split in Ha1 as (a1 & E1 & L1 & A1).
    assert (Hn : isNumber a1).
    { split; [destruct a1; [cbn in L1; lia | discriminate]|].
      now rewrite allDigits_allChars. }
    rewrite rep_optional, orb_true_iff in Hk. destruct Hk as [Hk|Hk].
    + rewrite run_rangeEnd in Hk.
      destruct (skipChars n1 range) as [|d t'] eqn:Hrest; [discriminate|].
      apply andb_true_iff in Hk as [Hd Hk]. apply Ascii.eqb_eq in Hd. subst d.
      apply rep_single in Hk as (n2 & _ & _ & Ha2 & Hk); [|lia|discriminate].
      apply andb_true_iff in Hk as [_ Hk]. rewrite andb_true_r in Hk.
      apply isEmpty_true in Hk.
      apply allFirst_split in Ha2 as (a2 & E2 & L2 & A2).
      rewrite Hk, append_empty_r in E2. subst t'.
      rewrite E1. destruct a2 as [|c2 a2].
      * now apply RangeFrom.
      * apply (RangeFromTo a1 (String c2 a2)); [assumption|].
        split; [discriminate | now rewrite allDigits_allChars].
    + rewrite andb_true_r in Hk. apply isEmpty_true in Hk.
      rewrite Hk, append_empty_r in E1. subst a1. now apply RangeSingle.
  - intros Hsyn.
    assert (Hcase : exists n rest,
               isNumber n /\ range = n ++ rest
               /\ (rest = EmptyString
                   \/ exists m, allDigits m = true /\ rest = String "-" m)).
    { destruct Hsyn as [n Hn|n Hn|n m Hn [_ Hm]].
      - exists n, EmptyString. rewrite append_empty_r. auto.
      - exists n, "-". split; [assumption|]. split; [reflexivity|].
        right. now exists EmptyString.
      - exists n, (String "-" m). split; [assumption|]. split; [reflexivity|].
        right. now exists m. }
    destruct Hcase as (n & rest & [Hne Hd] & -> & Hrest).
    rewrite allDigits_allChars in Hd.
    exists (String.length n). split; [destruct n; [congruence | cbn; lia]|].
    split; [discriminate|]. split; [now apply allFirst_app|].
    rewrite skipChars_app, rep_optional, orb_true_iff.
    destruct Hrest as [->|(m & Hm & ->)]; [now right|left].
    rewrite run_rangeEnd. cbn [Ascii.eqb andb].
    replace (Ascii.eqb "-" "-") with true by reflexivity. cbn [andb].
    apply rep_single; [lia|discriminate|].
    rewrite allDigits_allChars in Hm.
    exists (String.length m). split; [lia|]. split; [discriminate|].
    split; [now apply allFirst_whole|].
    rewrite skipChars_whole. cbn. reflexivity.
Qed.

Lemma matchRange_agrees range :
  RegExp.test false rangeRegex range = true <-> matchRange range <> None.
Proof.
  rewrite rangeRegex_test. split; [apply RangeSyntax_matchRange|].
  intros H. destruct (matchRange range) as [[g1 g2]|] eqn:Hm; [|congruence].
  eapply matchRange_syntax, Hm.
Qed.

(** ** The level literal read by the constructor *)

Lemma run_levelRegex pos s (k : RegExp.cont) :
  RegExp.run false levelRegex pos s k
  = Nat.eqb pos 0
    && RegExp.rep (single (Ascii.eqb "#")) k (1 + String.length s + 1) 1 None pos s.
Proof. reflexivity. Qed.

Lemma levelRegex_anchored pos s :
  pos <> 0%nat -> RegExp.run false levelRegex pos s (fun _ _ => true) = false.
Proof.
  intros H. rewrite run_levelRegex.
  replace (Nat.eqb pos 0) with false; [reflexivity|].
  symmetry. now apply Nat.eqb_neq.
Qed.

Lemma allFirst_leading n : forall s,
  allFirst (Ascii.eqb "#") n s = true -> (n <= Js.leading Js.HASH s)%nat.
Proof.
  induction n as [|n IH]; intros s H; [lia|].
  cbn [allFirst] in H. destruct s as [|c s]; [discriminate|].
  apply andb_true_iff in H as [Hc H]. apply Ascii.eqb_eq in Hc. subst c.
  cbn [Js.leading]. unfold Js.HASH at 1. rewrite Ascii.eqb_refl.
  specialize (IH s H). lia.
Qed.

(** [line.match(/^#+/)] is not null exactly when the line starts with a
    number sign, that is when [Js.leading] is not 0. *)
Lemma levelRegex_test line :
  RegExp.test false levelRegex line = true <-> (1 <= headingLevel line)%nat.
Proof.
  rewrite test_anchored by apply levelRegex_anchored.
  rewrite run_levelRegex. cbn [Nat.eqb andb].
  rewrite rep_single by (try lia; discriminate).
  unfold headingLevel. split.
  - intros (n & Hlo & _ & Ha & _). apply allFirst_leading in Ha. lia.
  - intros H. exists 1%nat. split; [lia|]. split; [discriminate|].
    destruct line as [|c line]; [cbn in H; lia|].
    cbn [Js.leading] in H. cbn [allFirst].
    destruct (Ascii.eqb_spec c Js.HASH) as [->|]; [|lia].
    split; reflexivity.
Qed.

(* ===================================================================== *)
(** * Part III: further properties of the code                            *)
(* ===================================================================== *)

(** ** Document cache: [set], [get], the sweep, [clear] and [destroy] *)

Lemma cache_get_result now url c :
  fst (Cache.get now url c)
  = match cache c !! url with
    | Some entry => if (now - timestamp entry <=? ttlMs c)%Z then Some entry else None
    | None => None
    end.
Proof.
  unfold Cache.get, Cache.expired. destruct (cache c !! url) as [e|]; [|reflexivity].
  rewrite Z.gtb_ltb, Z.ltb_antisym.
  destruct (now - timestamp e <=? ttlMs c)%Z; reflexivity.
Qed.

(** X1.  An entry stored at time [now] is returned by [get] at time [now']
    exactly while [now' - now] is at most the TTL, with the contents and
    the time stamp it was stored with; afterwards [get] returns nothing
    and leaves no entry for the URL. *)
Theorem set_then_get (now now' : Z) (url html markdown : string) (c : SimpleCache) :
  let stored := Cache.set now url html markdown c in
  let entry := {| htmlContent := html; markdownContent := markdown; timestamp := now |} in
  fst (Cache.get now' url stored)
  = (if (now' - now <=? ttlMs c)%Z then Some entry else None)
  /\ ((now' - now <= ttlMs c)%Z -> snd (Cache.get now' url stored) = stored)
  /\ ((now' - now > ttlMs c)%Z -> cache (snd (Cache.get now' url stored)) !! url = None).
Proof.
  intros stored entry.
  assert (Hl : cache stored !! url = Some entry) by apply lookup_insert_eq.
  split; [|split].
  - rewrite cache_get_result, Hl. reflexivity.
  - intros H. rewrite (cache_get_present _ _ _ _ Hl).
    replace (now' - timestamp entry >? ttlMs stored)%Z with false; [reflexivity|].
    symmetry. rewrite Z.gtb_ltb. apply Z.ltb_ge. cbn. lia.
  - intros H. apply cache_get_miss. rewrite cache_get_result, Hl.
    replace (now' - timestamp entry <=? ttlMs stored)%Z with false; [reflexivity|].
    symmetry. apply Z.leb_gt. cbn. lia.
Qed.

(** X2.  [set] concerns one URL only: what [get] returns for any other
    URL is the same before and after; and a second [set] for the same URL
    replaces the first one entirely (no merge, last write wins). *)
Theorem set_one_url (n1 n2 now : Z) (url other h1 m1 h2 m2 : string) (c : SimpleCache) :
  other <> url ->
  fst (Cache.get now other (Cache.set n1 url h1 m1 c)) = fst (Cache.get now other c)
  /\ Cache.set n2 url h2 m2 (Cache.set n1 url h1 m1 c) = Cache.set n2 url h2 m2 c.
Proof.
  intros Hne. split.
  - rewrite !cache_get_result. cbn [Cache.set cache ttlMs].
    now rewrite lookup_insert_ne by congruence.
  - unfold Cache.set. cbn [cache ttlMs]. f_equal. apply insert_insert_eq.
Qed.

Lemma set_one_url_witness :
  fst (Cache.get 1500 "https://other.example/"
         (Cache.set 1000 exampleUrl "<p>hello</p>" "hello" (Cache.create None)))
  = None.
Proof.
  assert (Hne : "https://other.example/" <> exampleUrl) by discriminate.
  rewrite (proj1 (set_one_url 1000 1000 1500 exampleUrl "https://other.example/"
                    "<p>hello</p>" "hello" "<p>hello</p>" "hello" (Cache.create None) Hne)).
  reflexivity.
Defined.

Lemma cleanupExpired_lookup now c url e :
  cache (Cache.cleanupExpired now c) !! url = Some e
  <-> cache c !! url = Some e /\ (now - timestamp e <= ttlMs c)%Z.
Proof.
  unfold Cache.cleanupExpired. cbn [cache].
  rewrite map_lookup_filter_Some. cbn [snd]. unfold Cache.expired.
  rewrite Z.gtb_ltb, Z.ltb_ge. reflexivity.
Qed.

(** X3.  The sweep removes exactly the entries whose age exceeds the TTL
    and keeps the others as they are.  A reader never notices it: at the
    time of the sweep or later, [get] returns the same for every URL with
    or without the sweep.  Sweeping twice at the same time is sweeping
    once. *)
Theorem sweep_removes_expired (now : Z) (c : SimpleCache) :
  (forall url e,
      cache (Cache.cleanupExpired now c) !! url = Some e
      <-> cache c !! url = Some e /\ (now - timestamp e <= ttlMs c)%Z)
  /\ (forall now' url, (now <= now')%Z ->
        fst (Cache.get now' url (Cache.cleanupExpired now c)) = fst (Cache.get now' url c))
  /\ Cache.cleanupExpired now (Cache.cleanupExpired now c) = Cache.cleanupExpired now c.
Proof.
  split; [apply cleanupExpired_lookup|]. split.
  - intros now' url Hle. rewrite !cache_get_result.
    change (ttlMs (Cache.cleanupExpired now c)) with (ttlMs c).
    destruct (cache c !! url) as [e|] eqn:He.
    + destruct (Z.leb_spec (now - timestamp e) (ttlMs c)) as [Hlive|Hexp].
      * assert (H : cache (Cache.cleanupExpired now c) !! url = Some e)
          by (apply cleanupExpired_lookup; auto).
        now rewrite H.
      * destruct (cache (Cache.cleanupExpired now c) !! url) as [e'|] eqn:He'.
        -- apply cleanupExpired_lookup in He' as [He' Hlive].
           assert (e' = e) as -> by congruence. lia.
        -- symmetry. replace (now' - timestamp e <=? ttlMs c)%Z with false; [reflexivity|].
           symmetry. apply Z.leb_gt. lia.
    + destruct (cache (Cache.cleanupExpired now c) !! url) as [e'|] eqn:He'; [|reflexivity].
      apply cleanupExpired_lookup in He' as [He' _]. congruence.
  - unfold Cache.cleanupExpired at 1 3. cbn [cache ttlMs]. f_equal.
    apply map_eq. intros url. apply option_eq. intros e.
    rewrite map_lookup_filter_Some. cbn [snd]. split; [tauto|].
    intros H. split; [assumption|].
    apply cleanupExpired_lookup in H as [_ H]. unfold Cache.expired.
    rewrite Z.gtb_ltb. apply Z.ltb_ge. exact H.
Qed.

Lemma sweep_removes_expired_witness :
  fst (Cache.get 2000 exampleUrl
         (Cache.cleanupExpired 1500
            (Cache.set 1000 exampleUrl "<p>hello</p>" "hello" (Cache.create None))))
  = Some exampleEntry.
Proof.
  rewrite (proj1 (proj2 (sweep_removes_expired 1500%Z _)) 2000%Z exampleUrl) by lia.
  reflexivity.
Defined.

(** X4.  Once [get] has returned nothing for a URL, it keeps returning
    nothing for it at every later or earlier time and changes the cache
    no more, until a [set] for that URL: an expired entry does not come
    back.  When [get] has returned an entry, asking again at the same time
    returns the same entry. *)
Theorem get_is_stable (now : Z) (url : string) (c : SimpleCache) :
  (fst (Cache.get now url c) = None ->
   forall now', Cache.get now' url (snd (Cache.get now url c))
                = (None, snd (Cache.get now url c)))
  /\ (forall entry, fst (Cache.get now url c) = Some entry ->
        Cache.get now url (snd (Cache.get now url c)) = (Some entry, c)).
Proof.
  split.
  - intros H now'. apply cache_get_absent. now apply cache_get_miss.
  - intros entry H. unfold Cache.get in *.
    destruct (cache c !! url) as [e|] eqn:He; [|discriminate].
    destruct (Cache.expired now c e) eqn:Hx; [discriminate|].
    cbn in *. injection H as ->. now rewrite He, Hx.
Qed.

Lemma get_is_stable_witness :
  Cache.get 5 exampleUrl
    (snd (Cache.get 100000 exampleUrl
            (Cache.set 1000 exampleUrl "<p>hello</p>" "hello" (Cache.create None))))
  = (None, snd (Cache.get 100000 exampleUrl
                  (Cache.set 1000 exampleUrl "<p>hello</p>" "hello" (Cache.create None)))).
Proof.
  apply (proj1 (get_is_stable 100000%Z exampleUrl _)). reflexivity.
Defined.

(** X5.  [destroy] stops the sweep timer the constructor started and
    empties the cache: after it every [get] returns nothing, the object
    holds no timer handle, and the runtime's timers are those that were
    active before the cache was constructed (for a fresh handle).
    Destroying twice is destroying once. *)
Theorem destroy_releases (ttl : option Z) (handle : nat) (active : gset nat)
  (o : CacheObject) (timers : gset nat) :
  (forall now url, fst (Cache.get now url (store (fst (CacheObject.destroy o timers)))) = None)
  /\ cleanupInterval (fst (CacheObject.destroy o timers)) = None
  /\ CacheObject.destroy (fst (CacheObject.destroy o timers))
       (snd (CacheObject.destroy o timers))
     = CacheObject.destroy o timers
  /\ (handle ∉ active ->
      snd (CacheObject.destroy (fst (CacheObject.construct ttl handle active))
             (snd (CacheObject.construct ttl handle active)))
      = active).
Proof.
  split; [|split; [|split]].
  - intros now url. unfold CacheObject.destroy.
    destruct (cleanupInterval o); cbn; rewrite cache_get_result; cbn;
      now rewrite lookup_empty.
  - unfold CacheObject.destroy. destruct (cleanupInterval o); reflexivity.
  - unfold CacheObject.destroy. destruct (cleanupInterval o); reflexivity.
  - intros Hfresh. cbn. set_solver.
Qed.

Lemma destroy_releases_witness :
  snd (CacheObject.destroy (fst (CacheObject.construct None 7 ∅))
         (snd (CacheObject.construct None 7 ∅)))
  = ∅.
Proof.
  apply (proj2 (proj2 (proj2 (destroy_releases None 7 ∅
                                (fst (CacheObject.construct None 7 ∅)) ∅)))).
  set_solver.
Defined.

(** ** Logging threshold *)

Lemma indexOf_unlisted level : unlistedLevel level -> levelRank level = (-1)%Z.
Proof.
  unfold unlistedLevel, levelRank, Logging.indexOf, Logging.levels. intros H.
  cbn [Logging.indexOf_from].
  repeat match goal with
         | |- context [String.eqb ?y level] =>
             destruct (String.eqb_spec y level) as [E|_];
             [exfalso; apply H; rewrite <- E; cbn; tauto|]
         end.
  reflexivity.
Qed.

Lemma indexOf_listed level :
  In level Logging.levels -> (0 <= levelRank level <= 3)%Z.
Proof.
  intros [<-|[<-|[<-|[<-|[]]]]]; vm_compute; split; discriminate.
Qed.

(** X6.  Among the listed levels debug, info, warning and error, a
    message is logged exactly when its position in that order is at least
    the position of the current level; so raising the level of a message
    never silences it, an error is logged under every current level, and
    under the initial level everything but debug is logged. *)
Theorem shouldLog_threshold (current : string) :
  (forall level, In current Logging.levels -> In level Logging.levels ->
     (Logging.shouldLog current level = true <-> (levelRank current <= levelRank level)%Z))
  /\ (forall l1 l2, Logging.shouldLog current l1 = true ->
        (levelRank l1 <= levelRank l2)%Z -> Logging.shouldLog current l2 = true)
  /\ Logging.shouldLog current "error" = true
  /\ (Logging.shouldLog Logging.initialLogLevel "debug" = false
      /\ Logging.shouldLog Logging.initialLogLevel "info" = true
      /\ Logging.shouldLog Logging.initialLogLevel "warning" = true).
Proof.
  unfold Logging.shouldLog. fold (levelRank current).
  split; [|split; [|split]].
  - intros level _ _. fold (levelRank level). rewrite Z.geb_leb, Z.leb_le. reflexivity.
  - intros l1 l2. fold (levelRank l1) (levelRank l2).
    rewrite !Z.geb_leb, !Z.leb_le. lia.
  - fold (levelRank "error"). rewrite Z.geb_leb, Z.leb_le.
    change (levelRank "error") with 3%Z.
    destruct (in_dec string_dec current Logging.levels) as [Hin|Hout].
    + apply indexOf_listed in Hin. lia.
    + rewrite (indexOf_unlisted current Hout). lia.
  - repeat split.
Qed.

(** X7.  A level that [shouldLog] does not list (the SDK also has notice,
    critical, alert and emergency) has position -1.  A message of such a
    level is dropped under every listed current level, debug included;
    and when the current level is such a level, every message is logged,
    whatever its level. *)
Theorem shouldLog_unlisted (current level : string) :
  (In current Logging.levels -> unlistedLevel level ->
   Logging.shouldLog current level = false)
  /\ (unlistedLevel current -> Logging.shouldLog current level = true).
Proof.
  unfold Logging.shouldLog. fold (levelRank current) (levelRank level). split.
  - intros Hin Hout. rewrite (indexOf_unlisted level Hout).
    apply indexOf_listed in Hin. rewrite Z.geb_leb. apply Z.leb_gt. lia.
  - intros Hout. rewrite (indexOf_unlisted current Hout), Z.geb_leb. apply Z.leb_le.
    destruct (in_dec string_dec level Logging.levels) as [Hin|Hout'].
    + apply indexOf_listed in Hin. lia.
    + rewrite (indexOf_unlisted level Hout'). lia.
Qed.

Lemma shouldLog_unlisted_witness :
  Logging.shouldLog "debug" "emergency" = false
  /\ Logging.shouldLog (Logging.setLogLevel "critical" Logging.initialLogLevel) "debug" = true.
Proof.
  split.
  - apply (proj1 (shouldLog_unlisted "debug" "emergency")).
    + cbn. tauto.
    + unfold unlistedLevel. cbn. intros [H|[H|[H|[H|[]]]]]; discriminate.
  - apply (proj2 (shouldLog_unlisted "critical" "debug")).
    unfold unlistedLevel. cbn. intros [H|[H|[H|[H|[]]]]]; discriminate.
Defined.

Lemma shouldLog_threshold_witness :
  Logging.shouldLog "info" "warning" = true /\ Logging.shouldLog "info" "error" = true.
Proof.
  split; [reflexivity|].
  apply (proj1 (proj2 (shouldLog_threshold "info")) "warning" "error"); [reflexivity|].
  vm_compute. discriminate.
Defined.

(** ** Extraction engine: options that count as unset *)

(** X8.  An empty section string, an empty range string and
    [readHeadings] false are treated exactly like absent options; with
    nothing else set the text is returned unchanged. *)
Theorem falsy_options_are_unset (text : string) (o : PaginationOptions) :
  applyPaginationOptions text o = applyPaginationOptions text (unsetFalsy o)
  /\ (unsetFalsy o = noOptions -> applyPaginationOptions text o = Returned text).
Proof.
  assert (H : applyPaginationOptions text o = applyPaginationOptions text (unsetFalsy o)).
  { unfold applyPaginationOptions, paragraphStep, characterStep.
    cbn [readHeadings section paragraphRange startChar maxLength unsetFalsy].
    destruct (readHeadings o) as [[|]|]; [reflexivity| |];
      (destruct (section o) as [[|c h]|]; cbn [dropEmpty Js.truthyString Js.isEmpty negb];
       destruct (paragraphRange o) as [[|d r]|]; reflexivity). }
  split; [exact H|]. intros Hno. rewrite H, Hno. reflexivity.
Qed.

Lemma falsy_options_are_unset_witness :
  applyPaginationOptions levelsDocument falsyOptions = Returned levelsDocument.
Proof.
  apply (proj2 (falsy_options_are_unset levelsDocument falsyOptions)). reflexivity.
Defined.

(** ** Character window: budget and pages *)

Lemma substring_length n : forall m s, (String.length (substring n m s) <= m)%nat.
Proof.
  induction n as [|n IHn]; intros m s.
  - revert s. induction m as [|m IHm]; intros s; destruct s as [|c s]; cbn; try lia.
    specialize (IHm s). lia.
  - destruct s as [|c s]; cbn; [lia | apply IHn].
Qed.

Lemma substring_infix n : forall m s,
  exists before after, s = before ++ substring n m s ++ after.
Proof.
  induction n as [|n IHn]; intros m s.
  - revert s. induction m as [|m IHm]; intros s.
    + exists EmptyString, s. destruct s; reflexivity.
    + destruct s as [|c s]; [now exists EmptyString, EmptyString|].
      destruct (IHm s) as (b & a & H). cbn [substring].
      assert (Hb : forall t, substring 0 m s = t -> exists a', s = t ++ a').
      { clear. revert s. induction m as [|m IH]; intros s t <-.
        - exists s. destruct s; reflexivity.
        - destruct s as [|c s]; [now exists EmptyString|].
          cbn [substring]. destruct (IH s _ eq_refl) as [a' Ha'].
          exists a'. cbn [String.append]. now f_equal. }
      destruct (Hb _ eq_refl) as [a' Ha'].
      exists EmptyString, a'. cbn [String.append]. now f_equal.
  - destruct s as [|c s]; [now exists EmptyString, EmptyString|].
    destruct (IHn m s) as (b & a & H). exists (String c b), a.
    cbn [substring String.append]. now f_equal.
Qed.

(** X9.  The character window never returns more than [maxLength]
    characters (for a positive [maxLength]) and never anything that is not
    in the text: the result is a contiguous part of the content, whatever
    the two numbers are. *)
Theorem window_within_budget (text : string) (startChar maxLength : option Z) :
  (exists before after,
      text = before ++ applyCharacterPagination text startChar maxLength ++ after)
  /\ (forall m, maxLength = Some m -> (0 < m)%Z ->
        (Js.len (applyCharacterPagination text startChar maxLength) <= m)%Z).
Proof.
  unfold applyCharacterPagination.
  set (s := match startChar with Some s => s | None => 0%Z end).
  destruct (s >=? Js.len text)%Z eqn:Hs.
  - split; [now exists EmptyString, text|]. intros m _ Hm. unfold Js.len. cbn. lia.
  - split; [apply substring_infix|].
    intros m -> Hm. unfold Js.truthyNumber.
    replace (m =? 0)%Z with false by (symmetry; apply Z.eqb_neq; lia). cbn [negb].
    unfold Js.slice. unfold Js.len at 1.
    match goal with |- context [substring ?a ?b ?c] =>
      pose proof (substring_length a b c) as Hlen; revert Hlen; generalize (substring a b c)
    end.
    intros r Hlen.
    rewrite Z.geb_leb in Hs. apply Z.leb_gt in Hs.
    assert (Hl : (0 <= Js.len text)%Z) by (unfold Js.len; lia).
    replace (Z.max 0 s <? 0)%Z with false in Hlen by (symmetry; apply Z.ltb_ge; lia).
    replace (Z.min (Js.len text) (Z.max 0 s + m) <? 0)%Z with false in Hlen
      by (symmetry; apply Z.ltb_ge; lia).
    lia.
Qed.

Lemma window_within_budget_witness :
  (Js.len (applyCharacterPagination "hello" (Some 1%Z) (Some 2%Z)) <= 2)%Z.
Proof.
  apply (proj2 (window_within_budget "hello" (Some 1%Z) (Some 2%Z)) 2%Z eq_refl). lia.
Defined.

Lemma charsBetween_adjacent s : forall i a b c,
  (a <= b <= c)%Z ->
  charsBetween i s a b ++ charsBetween i s b c = charsBetween i s a c.
Proof.
  induction s as [|x s IH]; intros i a b c H; [reflexivity|].
  destruct (Z.lt_ge_cases i b) as [Hib|Hbi].
  - cbn [charsBetween].
    replace (b <=? i)%Z with false by (symmetry; apply Z.leb_gt; lia).
    replace (i <? b)%Z with true by (symmetry; apply Z.ltb_lt; lia).
    cbn [andb]. rewrite andb_true_r.
    destruct (Z.leb_spec a i) as [Hai|Hia].
    + replace (i <? c)%Z with true by (symmetry; apply Z.ltb_lt; lia).
      cbn [String.append]. f_equal. now apply IH.
    + now apply IH.
  - rewrite (charsBetween_empty (String x s) i a b) by lia.
    rewrite (charsBetween_started (String x s) i b c) by lia.
    rewrite (charsBetween_started (String x s) i a c) by lia. reflexivity.
Qed.

Lemma positive_limit (o : option Z) :
  (forall k, o = Some k -> (0 < k)%Z) ->
  match o with Some 0%Z => None | other => other end = o.
Proof.
  intros H. destruct o as [[|p|p]|]; try reflexivity. specialize (H 0%Z eq_refl). lia.
Qed.

Lemma windowAsSpecified_pages text (s m : Z) (rest : option Z) :
  (0 <= s)%Z -> (0 < m)%Z -> (forall m2, rest = Some m2 -> (0 < m2)%Z) ->
  windowAsSpecified text s (Some m) ++ windowAsSpecified text (s + m) rest
  = windowAsSpecified text s (option_map (Z.add m) rest).
Proof.
  intros Hs Hm Hrest.
  assert (Hl : (0 <= Js.len text)%Z) by (unfold Js.len; lia).
  unfold windowAsSpecified, substringBetween.
  destruct (Z.geb_spec s (Js.len text)) as [Hout|Hin].
  - replace (s + m >=? Js.len text)%Z with true
      by (symmetry; rewrite Z.geb_leb; apply Z.leb_le; lia).
    reflexivity.
  - rewrite !Z.max_r by lia.
    destruct (Z.geb_spec (s + m) (Js.len text)) as [Hout2|Hin2].
    + rewrite append_empty_r, Z.min_l by lia.
      destruct rest as [m2|]; cbn [option_map]; [|reflexivity].
      specialize (Hrest m2 eq_refl). f_equal. lia.
    + rewrite (Z.min_r (Js.len text) (s + m)) by lia.
      destruct rest as [m2|]; cbn [option_map].
      * specialize (Hrest m2 eq_refl).
        replace (s + (m + m2))%Z with (s + m + m2)%Z by lia.
        apply charsBetween_adjacent. lia.
      * apply charsBetween_adjacent. lia.
Qed.

(** X10.  Consecutive windows are consecutive pages: the window of
    [maxLength] characters at [startChar], followed by the window that
    starts where it ends, is the single window of the combined length (or
    the whole remainder, when the second window has no [maxLength]).
    Nothing is lost or repeated between two pages. *)
Theorem windows_are_pages (text : string) (s m : Z) (rest : option Z) :
  (0 <= s)%Z -> (0 < m)%Z -> (forall m2, rest = Some m2 -> (0 < m2)%Z) ->
  applyCharacterPagination text (Some s) (Some m)
  ++ applyCharacterPagination text (Some (s + m)%Z) rest
  = applyCharacterPagination text (Some s) (option_map (Z.add m) rest).
Proof.
  intros Hs Hm Hrest.
  assert (Hsum : forall k, option_map (Z.add m) rest = Some k -> (0 < k)%Z).
  { intros k Hk. destruct rest as [m2|]; [|discriminate].
    injection Hk as <-. specialize (Hrest m2 eq_refl). lia. }
  rewrite (applyCharacterPagination_window text (Some s) (Some m))
    by (intros k [= <-]; lia).
  rewrite (applyCharacterPagination_window text (Some (s + m)%Z) rest)
    by (intros k Hk; specialize (Hrest k Hk); lia).
  rewrite (applyCharacterPagination_window text (Some s) (option_map (Z.add m) rest))
    by (intros k Hk; specialize (Hsum k Hk); lia).
  rewrite (positive_limit (Some m)) by (intros k [= <-]; lia).
  rewrite (positive_limit rest) by assumption.
  rewrite (positive_limit (option_map (Z.add m) rest)) by assumption.
  now apply windowAsSpecified_pages.
Qed.

Lemma windows_are_pages_witness :
  applyCharacterPagination "hello world" (Some 0%Z) (Some 5%Z)
  ++ applyCharacterPagination "hello world" (Some 5%Z) None
  = "hello world".
Proof.
  apply (windows_are_pages "hello world" 0 5 None); [lia | lia | discriminate].
Defined.

(** ** Lines *)

Lemma split_NL_cons c s :
  Js.split_from NL 0 (String c s)
  = if Ascii.eqb c Js.LF then EmptyString :: Js.split_from NL 0 s
    else match Js.split_from NL 0 s with
         | piece :: pieces => String c piece :: pieces
         | nil => String c EmptyString :: nil
         end.
Proof.
  cbn [Js.split_from]. unfold NL at 1. cbn [String.prefix String.length Nat.sub].
  destruct (ascii_dec Js.LF c) as [<-|Hne].
  - rewrite Ascii.eqb_refl. destruct s; reflexivity.
  - destruct (Ascii.eqb_spec c Js.LF) as [->|_]; [contradiction | reflexivity].
Qed.

Lemma split_line x : noLF x = true -> Js.split NL x = x :: nil.
Proof.
  unfold Js.split, noLF. induction x as [|c x IH]; intros H; [reflexivity|].
  cbn [allChars] in H. apply andb_true_iff in H as [Hc H].
  rewrite split_NL_cons. apply negb_true_iff in Hc. rewrite Hc, IH by assumption.
  reflexivity.
Qed.

Lemma split_line_app x t :
  noLF x = true -> Js.split NL (x ++ String Js.LF t) = x :: Js.split NL t.
Proof.
  unfold Js.split, noLF. induction x as [|c x IH]; intros H.
  - cbn [String.append]. rewrite split_NL_cons, Ascii.eqb_refl. reflexivity.
  - cbn [allChars] in H. apply andb_true_iff in H as [Hc H].
    cbn [String.append]. rewrite split_NL_cons. apply negb_true_iff in Hc.
    rewrite Hc, IH by assumption. reflexivity.
Qed.

(** The lines of a text hold no line feed, and joining lines without
    line feed and splitting again gives the lines back. *)
Lemma split_lines_noLF s : Forall (fun l => noLF l = true) (Js.split NL s).
Proof.
  unfold Js.split. induction s as [|c s IH]; [repeat constructor|].
  rewrite split_NL_cons. destruct (Ascii.eqb c Js.LF) eqn:Hc.
  - constructor; [reflexivity | assumption].
  - destruct (Js.split_from NL 0 s) as [|piece pieces]; [repeat constructor; cbn; now rewrite Hc|].
    inversion IH as [|? ? Hp Hps]; subst. constructor; [|assumption].
    unfold noLF in *. cbn [allChars]. now rewrite Hc, Hp.
Qed.

Lemma split_join_lines ls :
  ls <> nil -> Forall (fun l => noLF l = true) ls -> Js.split NL (Js.join NL ls) = ls.
Proof.
  induction ls as [|x ls IH]; intros Hne Hall; [congruence|].
  inversion Hall as [|? ? Hx Hls]; subst.
  destruct ls as [|y ls].
  - cbn [Js.join]. now apply split_line.
  - rewrite join_cons by discriminate. unfold NL at 2. cbn [String.append].
    rewrite split_line_app by assumption. f_equal. apply IH; [discriminate | assumption].
Qed.

Lemma filter_keeps_all {A} (f : A -> bool) l :
  Forall (fun x => f x = true) l -> List.filter f l = l.
Proof.
  induction 1 as [|x l Hx Hl IH]; cbn; [reflexivity|]. now rewrite Hx, IH.
Qed.

Lemma filter_Forall {A} (f : A -> bool) (P : A -> Prop) l :
  Forall P l -> Forall (fun x => f x = true /\ P x) (List.filter f l).
Proof.
  induction 1 as [|x l Hx Hl IH]; cbn; [constructor|].
  destruct (f x) eqn:Hf; [constructor; auto | assumption].
Qed.

(** ** Headings and sections: extracting twice *)

(** X11.  Extracting the headings of an extracted heading list changes
    nothing: the result of [extractHeadings] is a fixed point, the "No
    headings found" message included (it holds no heading line). *)
Theorem extractHeadings_idempotent (text : string) :
  extractHeadings (extractHeadings text) = extractHeadings text.
Proof.
  rewrite (extractHeadings_spec text).
  pose proof (filter_Forall isHeadingLine _ _ (split_lines_noLF text)) as Hall.
  destruct (List.filter isHeadingLine (Js.split NL text)) as [|h hs] eqn:Hf.
  - reflexivity.
  - rewrite extractHeadings_spec, split_join_lines.
    + rewrite filter_keeps_all; [reflexivity|].
      eapply Forall_impl; [exact Hall|]. now intros l [Hl _].
    + discriminate.
    + eapply Forall_impl; [exact Hall|]. now intros l [_ Hl].
Qed.

Lemma findSectionStart_found re : forall (lines : list string) i0 i level,
  findSectionStart re lines i0 = Some (i, level) ->
  exists k line,
    i = (i0 + k)%nat /\ lines !! k = Some line
    /\ RegExp.test true re line = true /\ level = headingLevel line
    /\ forall j l, (j < k)%nat -> lines !! j = Some l -> RegExp.test true re l = false.
Proof.
  induction lines as [|x lines IH]; intros i0 i level H; [discriminate|].
  cbn [findSectionStart] in H. destruct (RegExp.test true re x) eqn:Hx.
  - injection H as <- <-. exists 0%nat, x. rewrite Nat.add_0_r.
    repeat split; auto. intros j l Hj. lia.
  - destruct (IH _ _ _ H) as (k & line & -> & Hk & Ht & Hl & Hfirst).
    exists (S k), line. split; [lia|]. split; [exact Hk|]. split; [exact Ht|].
    split; [exact Hl|]. intros [|j] l Hj Hjl.
    + injection Hjl as <-. exact Hx.
    + apply (Hfirst j l); [lia | exact Hjl].
Qed.

Lemma findSectionStart_missing re : forall (lines : list string) i0,
  findSectionStart re lines i0 = None ->
  forall l, In l lines -> RegExp.test true re l = false.
Proof.
  induction lines as [|x lines IH]; intros i0 H l Hl; [contradiction|].
  cbn [findSectionStart] in H. destruct (RegExp.test true re x) eqn:Hx; [discriminate|].
  destruct Hl as [<-|Hl]; [exact Hx | eapply IH; eauto].
Qed.

Lemma findSectionEnd_none level (lines : list string) i0 :
  (forall j l, lines !! j = Some l -> ~ endsSection level l) ->
  findSectionEnd level lines i0 = None.
Proof.
  intros Hall.
  destruct (findSectionEnd_spec level lines i0) as [(k & l & _ & Hl & Hend & _)|[He _]];
    [|exact He].
  contradiction (Hall k l Hl).
Qed.

(** What a returned section is: nothing, when no line is accepted, or the
    lines from the first accepted one up to its end. *)
Lemma extractSection_returned text h s :
  extractSection text h = Returned s ->
  exists re,
    RegExp.create (sectionPattern h) = RegExp.Compiled re
    /\ (((forall l, In l (Js.split NL text) -> RegExp.test true re l = false)
         /\ s = EmptyString)
        \/ exists i line e,
             Js.split NL text !! i = Some line
             /\ RegExp.test true re line = true
             /\ (i < e <= List.length (Js.split NL text))%nat
             /\ s = Js.join NL (take (e - i) (drop i (Js.split NL text)))
             /\ forall j l, (i < j < e)%nat -> Js.split NL text !! j = Some l ->
                            ~ endsSection (headingLevel line) l).
Proof.
  intros H. unfold extractSection in H.
  destruct (RegExp.create (sectionPattern h)) as [re| |] eqn:Hre; try discriminate.
  exists re. split; [reflexivity|].
  destruct (findSectionStart re (Js.split NL text) 0) as [[i level]|] eqn:Hstart.
  - right. apply findSectionStart_found in Hstart
      as (k & line & -> & Hk & Ht & -> & Hfirst). cbn [Nat.add] in H.
    destruct (extractSection_extent text h re k line Hre Hk Ht Hfirst)
      as (e & He & Hsec & Hmid & _).
    unfold extractSection in Hsec. rewrite Hre in Hsec.
    rewrite (findSectionStart_first re _ 0 k line Hk Ht Hfirst) in Hsec.
    cbn [Nat.add] in Hsec. rewrite Hsec in H. injection H as <-.
    exists k, line, e. auto.
  - left. injection H as <-. split; [|reflexivity].
    eapply findSectionStart_missing, Hstart.
Qed.

(** X12.  Extracting a section from an extracted section returns it
    unchanged: the section starts at its own first line and nothing
    inside it ends it. *)
Theorem extractSection_idempotent (text h s : string) :
  extractSection text h = Returned s -> extractSection s h = Returned s.
Proof.
  intros H. apply extractSection_returned in H as (re & Hre & [[_ ->]|Hfound]).
  - unfold extractSection. rewrite Hre.
    change (Js.split NL EmptyString) with (EmptyString :: nil).
    cbn [findSectionStart]. destruct (RegExp.test true re EmptyString); reflexivity.
  - destruct Hfound as (i & line & e & Hi & Ht & He & -> & Hmid).
    set (lines := Js.split NL text) in *.
    set (sec := take (e - i) (drop i lines)).
    assert (Hlen : List.length sec = (e - i)%nat).
    { unfold sec. rewrite length_take, length_drop. lia. }
    assert (Hlook : forall k, (k < e - i)%nat -> sec !! k = lines !! (i + k)%nat).
    { intros k Hk. unfold sec. rewrite lookup_take_lt by assumption. apply lookup_drop. }
    assert (Hsplit : Js.split NL (Js.join NL sec) = sec).
    { apply split_join_lines.
      - intros Hnil. rewrite Hnil in Hlen. cbn in Hlen. lia.
      - apply Forall_take, Forall_drop, split_lines_noLF. }
    assert (H0 : Js.split NL (Js.join NL sec) !! 0%nat = Some line).
    { rewrite Hsplit, Hlook by lia. now rewrite Nat.add_0_r. }
    destruct (extractSection_extent (Js.join NL sec) h re 0 line Hre H0 Ht)
      as (e' & He' & Hsec & _ & Hend).
    { intros j l Hj. lia. }
    rewrite Hsplit in He', Hsec, Hend.
    assert (e' = List.length sec) as ->.
    { destruct (Nat.eq_dec e' (List.length sec)) as [|Hne]; [assumption|].
      destruct Hend as (l & Hl & Hends); [lia|].
      rewrite Hlook in Hl by lia.
      exfalso. apply (Hmid (i + e')%nat l); [lia | exact Hl | exact Hends]. }
    rewrite Hsec, drop_0, Nat.sub_0_r. do 2 f_equal. now apply take_ge.
Qed.

Lemma extractSection_idempotent_witness :
  extractSection ("# A" ++ NL ++ "## B" ++ NL ++ "text1") "A"
  = Returned ("# A" ++ NL ++ "## B" ++ NL ++ "text1").
Proof. apply (extractSection_idempotent levelsDocument "A"). reflexivity. Defined.

(** ** Section lookup: found or not found *)

Lemma join_starts sep c x tl : exists r, Js.join sep (String c x :: tl) = String c r.
Proof. destruct tl; cbn [Js.join String.append]; eauto. Qed.

Lemma section_lines_head (lines : list string) i e line :
  lines !! i = Some line -> (i < e)%nat ->
  exists tl, take (e - i) (drop i lines) = line :: tl.
Proof.
  intros Hi He. rewrite (drop_S _ _ _ Hi).
  destruct (e - i)%nat as [|k] eqn:E; [lia|]. cbn [take]. eauto.
Qed.

Lemma extractSection_plain text h :
  plainText h = true ->
  (extractSection text h = Returned EmptyString
   /\ forall line, In line (Js.split NL text) -> ~ SectionStart h line)
  \/ (exists line r,
        In line (Js.split NL text) /\ SectionStart h line
        /\ extractSection text h = Returned (String Js.HASH r)).
Proof.
  intros Hp. destruct (extractSection_returns text h Hp) as [s Hs].
  pose proof (create_sectionPattern h Hp) as Hcreate.
  destruct (extractSection_returned _ _ _ Hs) as (re & Hre & Hcases).
  rewrite Hcreate in Hre. injection Hre as <-.
  destruct Hcases as [[Hnone ->]|(i & line & e & Hi & Ht & He & -> & _)].
  - left. split; [exact Hs|]. intros line Hin Hstart.
    apply sectionRegexOf_test in Hstart. rewrite (Hnone line Hin) in Hstart. discriminate.
  - right. apply sectionRegexOf_test in Ht as Hstart.
    destruct (section_lines_head _ i e line Hi) as [tl Htl]; [lia|].
    pose proof Hstart as (u & h' & v & Hline & _).
    rewrite Htl, Hline in Hs. destruct (join_starts NL Js.HASH (u ++ h' ++ v) tl) as [r Hr].
    rewrite Hr in Hs. exists line, r. split; [|split; assumption].
    apply list_elem_of_In, list_elem_of_lookup. eauto.
Qed.

(** X13.  For a heading text without pattern syntax the "not found"
    placeholder is returned exactly when no line of the text begins with a
    number sign and holds the heading text (up to case); otherwise the
    result is the section, which begins with a number sign and so is never
    mistaken for the placeholder or for an empty result. *)
Theorem section_not_found (text h : string) :
  plainText h = true -> h <> EmptyString ->
  (applyPaginationOptions text (sectionOnly h) = Returned (sectionNotFound h)
   <-> forall line, In line (Js.split NL text) -> ~ SectionStart h line)
  /\ ((exists line, In line (Js.split NL text) /\ SectionStart h line) ->
      exists r, applyPaginationOptions text (sectionOnly h) = Returned (String Js.HASH r)
                /\ extractSection text h = Returned (String Js.HASH r)).
Proof.
  intros Hp Hne.
  assert (Happly : applyPaginationOptions text (sectionOnly h)
                   = match extractSection text h with
                     | Returned s => if Js.isEmpty s then Returned (sectionNotFound h)
                                     else Returned s
                     | Thrown e => Thrown e
                     | Unmodelled => Unmodelled
                     end).
  { unfold applyPaginationOptions. cbn [readHeadings section sectionOnly].
    unfold Js.truthyString. apply isEmpty_false in Hne. rewrite Hne. cbn [negb].
    destruct (extractSection text h) as [s| |]; reflexivity. }
  rewrite Happly.
  destruct (extractSection_plain text h Hp) as [[Hs Hnone]|(line & r & Hin & Hstart & Hs)];
    rewrite Hs; cbn [Js.isEmpty].
  - split; [tauto|]. intros (line & Hin & Hstart). contradiction (Hnone line Hin).
  - split.
    + split; [discriminate|]. intros Hnone. contradiction (Hnone line Hin).
    + intros _. exists r. auto.
Qed.

Lemma section_not_found_witness :
  applyPaginationOptions "plain text" (sectionOnly "Install")
  = Returned (sectionNotFound "Install").
Proof.
  apply (proj1 (section_not_found "plain text" "Install" eq_refl ltac:(discriminate))).
  intros line [<-|[]] (u & h' & v & Hline & _). discriminate Hline.
Defined.

(** ** Paragraph ranges: equal forms and empty results *)

Lemma range_single_in_bounds text n :
  isNumber n ->
  (1 <= Js.parseInt n <= Z.of_nat (List.length (paragraphsOf text)))%Z ->
  extractParagraphRange text n
  = nth (Z.to_nat (Js.parseInt n - 1)) (paragraphsOf text) EmptyString.
Proof.
  intros Hn Hin.
  now rewrite (extractParagraphRange_in_bounds _ _ _ _ (matchRange_single n Hn)).
Qed.

Lemma range_from_in_bounds text n :
  isNumber n ->
  (1 <= Js.parseInt n <= Z.of_nat (List.length (paragraphsOf text)))%Z ->
  extractParagraphRange text (n ++ "-")
  = Js.join NLNL (skipn (Z.to_nat (Js.parseInt n - 1)) (paragraphsOf text)).
Proof.
  intros Hn Hin.
  rewrite (extractParagraphRange_in_bounds _ _ _ _ (matchRange_from n Hn)) by assumption.
  cbn [Js.isEmpty]. f_equal. unfold Js.array_slice.
  replace (Js.parseInt n - 1 <? 0)%Z with false by (symmetry; apply Z.ltb_ge; lia).
  replace (Z.of_nat (List.length (paragraphsOf text)) <? 0)%Z with false
    by (symmetry; apply Z.ltb_ge; lia).
  rewrite Z.min_id, Z.min_l by lia. apply firstn_all2. rewrite length_skipn. lia.
Qed.

Lemma range_from_to_in_bounds text n m :
  isNumber n -> isNumber m ->
  (1 <= Js.parseInt n <= Z.of_nat (List.length (paragraphsOf text)))%Z ->
  extractParagraphRange text (n ++ "-" ++ m)
  = Js.join NLNL
      (firstn (Z.to_nat (Js.parseInt m - (Js.parseInt n - 1)))
         (skipn (Z.to_nat (Js.parseInt n - 1)) (paragraphsOf text))).
Proof.
  intros Hn [Hm Hd] Hin.
  rewrite (extractParagraphRange_in_bounds _ _ _ _ (matchRange_from_to n m Hn Hd))
    by assumption.
  apply isEmpty_false in Hm. rewrite Hm. f_equal. unfold Js.array_slice.
  pose proof (parseInt_nonneg m Hd) as Hpos.
  replace (Js.parseInt n - 1 <? 0)%Z with false by (symmetry; apply Z.ltb_ge; lia).
  replace (Js.parseInt m <? 0)%Z with false by (symmetry; apply Z.ltb_ge; lia).
  rewrite (Z.min_l (Js.parseInt n - 1)) by lia.
  set (rest := skipn (Z.to_nat (Js.parseInt n - 1)) (paragraphsOf text)).
  assert (Hrest : List.length rest
                  = (List.length (paragraphsOf text) - Z.to_nat (Js.parseInt n - 1))%nat)
    by apply length_skipn.
  destruct (Z.le_gt_cases (Js.parseInt m) (Z.of_nat (List.length (paragraphsOf text)))).
  - f_equal. lia.
  - rewrite !firstn_all2; [reflexivity|lia|lia].
Qed.

(** X14.  The forms of a range agree where they denote the same
    paragraphs: N-N is N; N-M with M at or past the last paragraph is N-;
    and the range 1- returns all paragraphs, joined by blank lines. *)
Theorem range_forms_agree (text n m : string) :
  isNumber n -> isNumber m ->
  (Js.parseInt m = Js.parseInt n ->
   extractParagraphRange text (n ++ "-" ++ m) = extractParagraphRange text n)
  /\ ((Z.of_nat (List.length (paragraphsOf text)) <= Js.parseInt m)%Z ->
      extractParagraphRange text (n ++ "-" ++ m) = extractParagraphRange text (n ++ "-"))
  /\ (paragraphsOf text <> nil ->
      extractParagraphRange text "1-" = Js.join NLNL (paragraphsOf text)).
Proof.
  intros Hn Hm.
  assert (Hcases : (1 <= Js.parseInt n <= Z.of_nat (List.length (paragraphsOf text)))%Z
                   \/ (Js.parseInt n < 1
                       \/ Z.of_nat (List.length (paragraphsOf text)) < Js.parseInt n)%Z)
    by lia.
  split; [|split].
  - intros Heq. destruct Hcases as [Hin|Hout].
    + rewrite range_from_to_in_bounds, range_single_in_bounds by assumption.
      rewrite Heq. replace (Z.to_nat (Js.parseInt n - (Js.parseInt n - 1))) with 1%nat by lia.
      rewrite (firstn_one_skipn _ _ EmptyString) by lia. reflexivity.
    + rewrite (extractParagraphRange_out_of_bounds _ _ _ _
                 (matchRange_from_to n m Hn (proj2 Hm)) Hout).
      now rewrite (extractParagraphRange_out_of_bounds _ _ _ _ (matchRange_single n Hn) Hout).
  - intros Hlast. destruct Hcases as [Hin|Hout].
    + rewrite range_from_to_in_bounds, range_from_in_bounds by assumption.
      f_equal. apply firstn_all2. rewrite length_skipn. lia.
    + rewrite (extractParagraphRange_out_of_bounds _ _ _ _
                 (matchRange_from_to n m Hn (proj2 Hm)) Hout).
      now rewrite (extractParagraphRange_out_of_bounds _ _ _ _ (matchRange_from n Hn) Hout).
  - intros Hne.
    assert (H1 : isNumber "1") by (split; [discriminate | reflexivity]).
    change "1-" with ("1" ++ "-"). rewrite range_from_in_bounds; [reflexivity|exact H1|].
    change (Js.parseInt "1") with 1%Z.
    destruct (paragraphsOf text); [congruence | cbn [List.length]; lia].
Qed.

Lemma range_forms_agree_witness :
  extractParagraphRange threeParagraphs "2-2" = extractParagraphRange threeParagraphs "2".
Proof.
  assert (H : isNumber "2") by (split; [discriminate | reflexivity]).
  exact (proj1 (range_forms_agree threeParagraphs "2" "2" H H) eq_refl).
Defined.

Lemma paragraph_nonempty text p : In p (paragraphsOf text) -> p <> EmptyString.
Proof. intros H ->. apply paragraphsOf_spec in H as [_ H]. now apply H. Qed.

Lemma join_nonempty sep p tl : p <> EmptyString -> Js.join sep (p :: tl) <> EmptyString.
Proof.
  intros Hp. destruct p as [|c p]; [congruence|].
  destruct (join_starts sep c p tl) as [r ->]. discriminate.
Qed.

(** X15.  With N inside the paragraphs, the ranges N and N- never give
    an empty result, and N-M gives one exactly when M is smaller than N.
    So, N being valid, a reversed range is reported with the "invalid or
    out of bounds" placeholder, and no other range has an empty result. *)
Theorem reversed_range_is_invalid (text n : string) :
  isNumber n ->
  (1 <= Js.parseInt n <= Z.of_nat (List.length (paragraphsOf text)))%Z ->
  extractParagraphRange text n <> EmptyString
  /\ extractParagraphRange text (n ++ "-") <> EmptyString
  /\ (forall m, isNumber m ->
        (extractParagraphRange text (n ++ "-" ++ m) = EmptyString
         <-> (Js.parseInt m < Js.parseInt n)%Z)
        /\ ((Js.parseInt m < Js.parseInt n)%Z ->
            applyPaginationOptions text (rangeOnly (n ++ "-" ++ m))
            = Returned (rangeInvalid (n ++ "-" ++ m)))).
Proof.
  intros Hn Hin.
  set (ps := paragraphsOf text) in *.
  set (k := Z.to_nat (Js.parseInt n - 1)).
  assert (Hk : (k < List.length ps)%nat) by (unfold k; lia).
  destruct (skipn k ps) as [|p tl] eqn:Hskip.
  { apply (f_equal (@List.length string)) in Hskip. rewrite length_skipn in Hskip.
    cbn in Hskip. lia. }
  assert (Hp : p <> EmptyString).
  { apply (paragraph_nonempty text). fold ps. rewrite <- (firstn_skipn k ps), Hskip.
    apply in_or_app. right. now left. }
  assert (Hrange : forall m, isNumber m ->
            extractParagraphRange text (n ++ "-" ++ m) = EmptyString
            <-> (Js.parseInt m < Js.parseInt n)%Z).
  { intros m Hm. rewrite range_from_to_in_bounds by assumption. fold ps k. rewrite Hskip.
    destruct (Z.to_nat (Js.parseInt m - (Js.parseInt n - 1))) as [|j] eqn:Hj.
    - cbn. split; [lia | reflexivity].
    - cbn [firstn]. split; [|lia]. intros H. now apply join_nonempty in H. }
  split; [|split].
  - rewrite range_single_in_bounds by assumption. fold ps k.
    rewrite <- (firstn_skipn k ps), Hskip, app_nth2 by (rewrite length_firstn; lia).
    rewrite length_firstn. replace (k - Nat.min k (List.length ps))%nat with 0%nat by lia.
    exact Hp.
  - rewrite range_from_in_bounds by assumption. fold ps k. rewrite Hskip.
    now apply join_nonempty.
  - intros m Hm. split; [now apply Hrange|]. intros Hrev.
    unfold applyPaginationOptions. cbn [readHeadings section rangeOnly].
    apply paragraphStep_empty_result; [reflexivity| |now apply Hrange].
    apply append_nonempty, Hn.
Qed.

Lemma reversed_range_is_invalid_witness :
  applyPaginationOptions threeParagraphs (rangeOnly "3-1")
  = Returned (rangeInvalid "3-1").
Proof.
  assert (H3 : isNumber "3") by (split; [discriminate | reflexivity]).
  assert (H1 : isNumber "1") by (split; [discriminate | reflexivity]).
  refine (proj2 (proj2 (proj2 (reversed_range_is_invalid threeParagraphs "3" H3 _)) "1" H1) _).
  - vm_compute. split; discriminate.
  - vm_compute. reflexivity.
Defined.

(** ** Retrieval pipeline: the cache-hit path *)

Lemma pipeline_on_hit w url timeoutMs opts c entry :
  cache c !! url = Some entry ->
  (nowAtGet w - timestamp entry <= ttlMs c)%Z ->
  fetchAndConvertToMarkdown w url timeoutMs opts c
  = (applyPaginationOptions (markdownContent entry) opts, c).
Proof.
  intros He Hage. unfold fetchAndConvertToMarkdown.
  rewrite (cache_get_present _ _ _ _ He).
  replace (nowAtGet w - timestamp entry >? ttlMs c)%Z with false; [reflexivity|].
  symmetry. rewrite Z.gtb_ltb. apply Z.ltb_ge. lia.
Qed.

(** X16.  While a cached entry is fresh, a call for its URL is answered
    from the converted text of the entry and leaves the cache as it is;
    neither the URL parser, nor the network, nor the converter is
    consulted, so the answer is the same in every world with that clock
    (even one where the URL would be rejected and the network is down). *)
Theorem cache_hit_skips_network (w w' : World) (url : string) (timeoutMs : Z)
  (opts : PaginationOptions) (c : SimpleCache) (entry : CacheEntry) :
  cache c !! url = Some entry ->
  (nowAtGet w - timestamp entry <= ttlMs c)%Z ->
  nowAtGet w' = nowAtGet w ->
  fetchAndConvertToMarkdown w url timeoutMs opts c
  = (applyPaginationOptions (markdownContent entry) opts, c)
  /\ fetchAndConvertToMarkdown w' url timeoutMs opts c
     = fetchAndConvertToMarkdown w url timeoutMs opts c.
Proof.
  intros He Hage Hclock.
  rewrite (pipeline_on_hit w' url timeoutMs opts c entry He) by (rewrite Hclock; exact Hage).
  now rewrite (pipeline_on_hit w url timeoutMs opts c entry He Hage).
Qed.

Lemma cache_hit_skips_network_witness :
  fetchAndConvertToMarkdown (offlineWorld 1500) exampleUrl 10000%Z noOptions cachedHello
  = (Returned "hello", cachedHello).
Proof.
  refine (proj1 (cache_hit_skips_network (offlineWorld 1500) (offlineWorld 1500)
                   exampleUrl 10000%Z noOptions cachedHello exampleEntry _ _ eq_refl)).
  - apply lookup_insert_eq.
  - cbn. lia.
Defined.

(** A run that reaches the conversion with text that is not blank stores
    it, whatever the extraction then does. *)
Lemma pipeline_stores w url timeoutMs opts c response html markdown :
  fst (Cache.get (nowAtGet w) url c) = None ->
  parsesAsURL w url = true ->
  fetch w url = inr response ->
  ok response = true ->
  text response = inr html ->
  blank html = false ->
  translate w html = inr markdown ->
  blank markdown = false ->
  fetchAndConvertToMarkdown w url timeoutMs opts c
  = (match applyPaginationOptions markdown opts with
     | Thrown e => Thrown (catchClause url timeoutMs e)
     | other => other
     end,
     Cache.set (nowAtSet w) url html markdown (snd (Cache.get (nowAtGet w) url c))).
Proof.
  intros Hmiss Hurl Hfetch Hok Htext Hhtml Htr Hmd.
  rewrite pipeline_on_miss by assumption.
  unfold tryBlock. rewrite Hfetch, Hok, Htext. cbn [negb].
  rewrite Hhtml, Htr, Hmd.
  destruct (applyPaginationOptions markdown opts); reflexivity.
Qed.

Lemma cache_get_ttl now url c : ttlMs (snd (Cache.get now url c)) = ttlMs c.
Proof.
  unfold Cache.get. destruct (cache c !! url) as [e|]; [|reflexivity].
  destruct (Cache.expired now c e); reflexivity.
Qed.

Lemma second_call_hits_cache_aux w w2 url timeoutMs t2 opts opts2 c response html markdown :
  fst (Cache.get (nowAtGet w) url c) = None ->
  parsesAsURL w url = true ->
  fetch w url = inr response ->
  ok response = true ->
  text response = inr html ->
  blank html = false ->
  translate w html = inr markdown ->
  blank markdown = false ->
  (nowAtGet w2 - nowAtSet w <= ttlMs c)%Z ->
  fetchAndConvertToMarkdown w2 url t2 opts2
    (snd (fetchAndConvertToMarkdown w url timeoutMs opts c))
  = (applyPaginationOptions markdown opts2,
     snd (fetchAndConvertToMarkdown w url timeoutMs opts c)).
Proof.
  intros Hmiss Hurl Hfetch Hok Htext Hhtml Htr Hmd Hfresh.
  rewrite (pipeline_stores w url timeoutMs opts c response html markdown) by assumption.
  cbn [snd].
  apply (pipeline_on_hit w2 url t2 opts2 _
           {| htmlContent := html; markdownContent := markdown; timestamp := nowAtSet w |}).
  - apply lookup_insert_eq.
  - cbn [timestamp Cache.set ttlMs]. rewrite cache_get_ttl. exact Hfresh.
Qed.

(** X17.  After a run that fetched and converted a page, every call for
    the same URL made while the entry is fresh (clock at most TTL after
    the store) is answered from the stored text, with its own options and
    without the network: the second call hits the cache. *)
Theorem second_call_hits_cache (w w2 : World) (url : string) (timeoutMs t2 : Z)
  (opts opts2 : PaginationOptions) (c : SimpleCache)
  (response : Response) (html markdown : string) :
  fst (Cache.get (nowAtGet w) url c) = None ->
  parsesAsURL w url = true ->
  fetch w url = inr response ->
  ok response = true ->
  text response = inr html ->
  blank html = false ->
  translate w html = inr markdown ->
  blank markdown = false ->
  (nowAtGet w2 - nowAtSet w <= ttlMs c)%Z ->
  let c1 := snd (fetchAndConvertToMarkdown w url timeoutMs opts c) in
  fetchAndConvertToMarkdown w2 url t2 opts2 c1
  = (applyPaginationOptions markdown opts2, c1).
Proof.
  intros Hmiss Hurl Hfetch Hok Htext Hhtml Htr Hmd Hfresh c1. subst c1.
  now apply (second_call_hits_cache_aux w w2 url timeoutMs t2 opts opts2 c response html).
Qed.

Lemma second_call_hits_cache_witness :
  fetchAndConvertToMarkdown (offlineWorld 50000) exampleUrl 10000%Z noOptions
    (snd (fetchAndConvertToMarkdown servingWorld exampleUrl 10000%Z noOptions
            (Cache.create None)))
  = (Returned "<p>hello</p>",
     snd (fetchAndConvertToMarkdown servingWorld exampleUrl 10000%Z noOptions
            (Cache.create None))).
Proof.
  refine (second_call_hits_cache servingWorld (offlineWorld 50000) exampleUrl
            10000%Z 10000%Z noOptions noOptions (Cache.create None)
            examplePage "<p>hello</p>" "<p>hello</p>" _ _ _ _ _ _ _ _ _);
    try reflexivity.
  cbn. lia.
Defined.

(** ** Retrieval pipeline: failures and the cache *)

Lemma applyPaginationOptions_throws text opts e :
  applyPaginationOptions text opts = Thrown e -> e = NativeError "SyntaxError".
Proof.
  unfold applyPaginationOptions.
  assert (Hstep : forall t, paragraphStep opts t = Thrown e -> e = NativeError "SyntaxError").
  { intros t H. destruct (paragraphStep_returns opts t) as [s Hs]. congruence. }
  destruct (readHeadings opts) as [[|]|]; [discriminate| |];
    (destruct (section opts) as [h|]; [|apply Hstep];
     destruct (Js.truthyString h); [|apply Hstep];
     unfold extractSection;
     destruct (RegExp.create (sectionPattern h)) as [re| |];
     [ destruct (findSectionStart re _ 0) as [[i level]|];
       [ match goal with
         | |- context [Js.isEmpty ?s] => destruct (Js.isEmpty s)
         end; [discriminate | apply Hstep]
       | cbn [Js.isEmpty]; discriminate ]
     | now intros [= <-]
     | discriminate ]).
Qed.

(** X18.  On the cache-miss path every failure is reported as an error of
    the pipeline's own kind carrying the URL of the call, never as a bare
    error of the runtime.  Unless the kind is [UnexpectedError] (the
    extraction failed after the page was stored), the failed call leaves
    the cache as the initial [get] left it: nothing is stored for a URL
    that was rejected, unreachable, answered with an error status, had an
    unreadable or blank body, or failed to convert. *)
Theorem failures_are_tagged (w : World) (url : string) (timeoutMs : Z)
  (opts : PaginationOptions) (c : SimpleCache) (e : error) :
  fst (Cache.get (nowAtGet w) url c) = None ->
  fst (fetchAndConvertToMarkdown w url timeoutMs opts c) = Thrown e ->
  exists kind,
    e = MCPSearXNGError kind url
    /\ (kind <> UnexpectedError ->
        snd (fetchAndConvertToMarkdown w url timeoutMs opts c)
        = snd (Cache.get (nowAtGet w) url c)).
Proof.
  intros Hmiss. unfold fetchAndConvertToMarkdown.
  destruct (Cache.get (nowAtGet w) url c) as [[entry|] c1]; cbn in Hmiss; [discriminate|].
  cbn [snd]. destruct (parsesAsURL w url); cbn [negb].
  2:{ intros [= <-]. exists URLFormatError. now split. }
  unfold tryBlock.
  destruct (fetch w url) as [e0|response].
  { intros [= <-]. exists NetworkError. now split. }
  destruct (ok response); cbn [negb].
  2:{ intros [= <-]. exists ServerError. now split. }
  destruct (text response) as [e0|html].
  { intros [= <-]. exists ContentError. now split. }
  destruct (blank html).
  { intros [= <-]. exists ContentError. now split. }
  destruct (translate w html) as [e0|markdown].
  { intros [= <-]. exists ConversionError. now split. }
  destruct (blank markdown); [discriminate|].
  destruct (applyPaginationOptions markdown opts) as [s|e0|] eqn:Hx; try discriminate.
  apply applyPaginationOptions_throws in Hx. subst e0.
  intros [= <-]. exists UnexpectedError. split; [reflexivity | congruence].
Qed.

Lemma failures_are_tagged_witness :
  exists kind,
    MCPSearXNGError NetworkError exampleUrl = MCPSearXNGError kind exampleUrl
    /\ (kind <> UnexpectedError ->
        snd (fetchAndConvertToMarkdown abortingWorld exampleUrl 10000%Z noOptions
               (Cache.create None))
        = snd (Cache.get (nowAtGet abortingWorld) exampleUrl (Cache.create None))).
Proof.
  apply (failures_are_tagged abortingWorld exampleUrl 10000%Z noOptions (Cache.create None));
    reflexivity.
Defined.

(** X19.  When the page was fetched and converted but the extraction
    throws (a requested heading that is no well-formed pattern), the call
    fails with [UnexpectedError] and the page is stored all the same.  The
    same call repeated while the entry is fresh takes the cache-hit path,
    which is outside the [try] block: it fails again, this time with the
    bare SyntaxError of the runtime. *)
Theorem failed_extraction_is_cached (w w2 : World) (url : string) (timeoutMs t2 : Z)
  (opts : PaginationOptions) (c : SimpleCache)
  (response : Response) (html markdown : string) (e : error) :
  fst (Cache.get (nowAtGet w) url c) = None ->
  parsesAsURL w url = true ->
  fetch w url = inr response ->
  ok response = true ->
  text response = inr html ->
  blank html = false ->
  translate w html = inr markdown ->
  blank markdown = false ->
  applyPaginationOptions markdown opts = Thrown e ->
  (nowAtGet w2 - nowAtSet w <= ttlMs c)%Z ->
  let run1 := fetchAndConvertToMarkdown w url timeoutMs opts c in
  fst run1 = Thrown (MCPSearXNGError UnexpectedError url)
  /\ cache (snd run1) !! url
     = Some {| htmlContent := html; markdownContent := markdown; timestamp := nowAtSet w |}
  /\ fetchAndConvertToMarkdown w2 url t2 opts (snd run1)
     = (Thrown (NativeError "SyntaxError"), snd run1).
Proof.
  intros Hmiss Hurl Hfetch Hok Htext Hhtml Htr Hmd Hx Hfresh run1.
  pose proof (applyPaginationOptions_throws _ _ _ Hx) as ->.
  assert (Hrun : run1 = (Thrown (MCPSearXNGError UnexpectedError url),
                         Cache.set (nowAtSet w) url html markdown
                           (snd (Cache.get (nowAtGet w) url c)))).
  { unfold run1.
    rewrite (pipeline_stores w url timeoutMs opts c response html markdown) by assumption.
    rewrite Hx. reflexivity. }
  split; [now rewrite Hrun|]. split; [rewrite Hrun; apply lookup_insert_eq|].
  unfold run1.
  rewrite (second_call_hits_cache_aux w w2 url timeoutMs t2 opts opts c response html markdown)
    by assumption.
  now rewrite Hx.
Qed.

Lemma failed_extraction_is_cached_witness :
  fst (fetchAndConvertToMarkdown servingWorld exampleUrl 10000%Z (sectionOnly "(")
         (Cache.create None))
  = Thrown (MCPSearXNGError UnexpectedError exampleUrl)
  /\ fst (fetchAndConvertToMarkdown (offlineWorld 2000) exampleUrl 10000%Z (sectionOnly "(")
            (snd (fetchAndConvertToMarkdown servingWorld exampleUrl 10000%Z
                    (sectionOnly "(") (Cache.create None))))
     = Thrown (NativeError "SyntaxError").
Proof.
  destruct (failed_extraction_is_cached servingWorld (offlineWorld 2000) exampleUrl
              10000%Z 10000%Z (sectionOnly "(") (Cache.create None)
              examplePage "<p>hello</p>" "<p>hello</p>" (NativeError "SyntaxError"))
    as (H1 & _ & H2); try reflexivity.
  - cbn. lia.
  - split; [exact H1 | now rewrite H2].
Defined.

(** X20.  An expired entry counts for nothing: a call for a URL whose
    entry has outlived the TTL runs exactly as if the entry had been
    deleted before, so it goes to the network and, on success, replaces
    the entry. *)
Theorem expired_entry_is_absent (w : World) (url : string) (timeoutMs : Z)
  (opts : PaginationOptions) (c : SimpleCache) (entry : CacheEntry) :
  cache c !! url = Some entry ->
  (nowAtGet w - timestamp entry > ttlMs c)%Z ->
  fetchAndConvertToMarkdown w url timeoutMs opts c
  = fetchAndConvertToMarkdown w url timeoutMs opts
      {| cache := delete url (cache c); ttlMs := ttlMs c |}.
Proof.
  intros He Hage. unfold fetchAndConvertToMarkdown.
  rewrite (cache_get_present _ _ _ _ He).
  replace (nowAtGet w - timestamp entry >? ttlMs c)%Z with true
    by (symmetry; rewrite Z.gtb_ltb; apply Z.ltb_lt; lia).
  rewrite cache_get_absent by (cbn; apply lookup_delete_eq). reflexivity.
Qed.

Lemma expired_entry_is_absent_witness :
  fst (fetchAndConvertToMarkdown lateWorld exampleUrl 10000%Z noOptions expiredHello)
  = Returned "<p>hello</p>".
Proof.
  rewrite (expired_entry_is_absent lateWorld exampleUrl 10000%Z noOptions expiredHello
             {| htmlContent := "<p>old</p>"; markdownContent := "old"; timestamp := 1000 |}).
  - reflexivity.
  - apply lookup_insert_eq.
  - cbn. lia.
Defined.

(** X21.  A call changes the cache for its own URL at most: the entry of
    every other URL, and the TTL, are after the call what they were
    before, whether the call succeeded or failed. *)
Theorem run_touches_one_url (w : World) (url other : string) (timeoutMs : Z)
  (opts : PaginationOptions) (c : SimpleCache) :
  other <> url ->
  cache (snd (fetchAndConvertToMarkdown w url timeoutMs opts c)) !! other = cache c !! other
  /\ ttlMs (snd (fetchAndConvertToMarkdown w url timeoutMs opts c)) = ttlMs c.
Proof.
  intros Hne.
  assert (Hget : cache (snd (Cache.get (nowAtGet w) url c)) !! other = cache c !! other).
  { unfold Cache.get. destruct (cache c !! url) as [e|]; [|reflexivity].
    destruct (Cache.expired (nowAtGet w) c e); [|reflexivity].
    cbn. apply lookup_delete_ne. congruence. }
  destruct (pipeline_cache w url timeoutMs opts c) as [H|(html & md & _ & H)]; rewrite H.
  - split; [exact Hget | apply cache_get_ttl].
  - cbn [Cache.set cache ttlMs]. rewrite lookup_insert_ne by congruence.
    split; [exact Hget | apply cache_get_ttl].
Qed.

Lemma run_touches_one_url_witness :
  cache (snd (fetchAndConvertToMarkdown lateWorld "https://other.example/" 10000%Z
                noOptions cachedHello)) !! exampleUrl
  = cache cachedHello !! exampleUrl.
Proof.
  apply (run_touches_one_url lateWorld "https://other.example/" exampleUrl). discriminate.
Defined.

Lemma set_then_get_witness :
  fst (Cache.get 61000 exampleUrl cachedHello) = Some exampleEntry
  /\ fst (Cache.get 61001 exampleUrl cachedHello) = None.
Proof.
  split.
  - exact (proj1 (set_then_get 1000 61000 exampleUrl "<p>hello</p>" "hello"
                    (Cache.create None))).
  - exact (proj1 (set_then_get 1000 61001 exampleUrl "<p>hello</p>" "hello"
                    (Cache.create None))).
Defined.
